(** * Verification of the private-key-split secret-sharing engine

    A shallow embedding of [src/gf256.js], [src/keySharing.ts] and the
    share-derivation entry point of [src/keyManager.ts], together with the
    properties of the 2-of-3 sharing scheme that the code establishes.

    Conventions of the embedding.
    - A JavaScript number that the code uses as an integer is a [Z]; a
      [Uint8Array] is a [list Z] whose elements are bytes, and every store into
      a [Uint8Array] goes through [u8] (the ToUint8 wrap-around).  Sums and
      products of bytes and table entries are exact; the one product with an
      unbounded operand, in [pow], is rounded as a double is.
    - The one-element [Uint8Array] that the field operations return, and the
      [a instanceof Uint8Array ? a[0] : a] coercion they apply to their
      operands, are both the identity on the byte they carry.
    - [throw] is the [Throw] constructor of [result]; the exceptions met are
      the [Error]s of the source and the [RangeError] of Node's
      [crypto.timingSafeEqual].
    - The operating system's random source is an oracle, a function from the
      number of the draw to the drawn value. *)

From Stdlib Require Import ZArith String Ascii List Bool Lia.
Import ListNotations.
Open Scope Z_scope.

(** ** JavaScript run-time model *)

(** Element store of a [Uint8Array]. *)
Definition u8 (v : Z) : Z := v mod 256.

Definition is_byte (v : Z) : Prop := 0 <= v < 256.

(** [table[k]] for reading.  Outside the array JavaScript yields [undefined],
    which every caller stores into a [Uint8Array], where it becomes [0]. *)
Definition get (table : list Z) (k : Z) : Z :=
  if k <? 0 then 0 else nth (Z.to_nat k) table 0.

(** [table[k] = v] on an array that already has index [k]. *)
Fixpoint set_nth (n : nat) (v : Z) (table : list Z) : list Z :=
  match table, n with
  | [], _ => []
  | _ :: t, O => v :: t
  | h :: t, S n' => h :: set_nth n' v t
  end.

Definition set (table : list Z) (k : Z) (v : Z) : list Z :=
  set_nth (Z.to_nat k) v table.

(** The double nearest to an integer, ties to the even significand of 53
    bits; [None] is an infinity.  Integers below [2^53] in absolute value are
    doubles themselves. *)
Definition to_double (z : Z) : option Z :=
  let m := Z.abs z in
  if m <? 2 ^ 53 then Some z
  else
    let k := Z.log2 m - 52 in
    let q := m / 2 ^ k in
    let r := m mod 2 ^ k in
    let half := 2 ^ (k - 1) in
    let q := if (half <? r) || ((r =? half) && Z.odd q) then q + 1 else q in
    let v := q * 2 ^ k in
    if 2 ^ 1024 <=? v then None else Some (Z.sgn z * v).

(** An integer that is a JavaScript number. *)
Definition is_number (z : Z) : Prop := to_double z = Some z.

(** [a * b] on numbers: the exact product, rounded. *)
Definition number_mul (a b : Z) : option Z := to_double (a * b).

(** [for (let i = lo; i < lo + n; i++) st = body(i, st)]. *)
Definition for_loop {St : Type} (lo : Z) (n : nat) (body : Z -> St -> St)
    (init : St) : St :=
  fold_left (fun st i => body i st) (map (fun k => lo + Z.of_nat k) (seq 0 n)) init.

(** Exceptions and fallible computations. *)
Inductive exn : Type :=
| Error (message : string)
| RangeError (message : string).

Inductive result (A : Type) : Type :=
| Ok (a : A)
| Throw (e : exn).
Arguments Ok {A} a.
Arguments Throw {A} e.

Definition bind {A B : Type} (m : result A) (f : A -> result B) : result B :=
  match m with
  | Ok a => f a
  | Throw e => Throw e
  end.

Notation "x <- m ;; k" := (bind m (fun x => k))
  (at level 61, m at next level, right associativity).

(** A [for] loop whose body may throw. *)
Fixpoint for_each {A St : Type} (items : list A) (body : A -> St -> result St)
    (init : St) : result St :=
  match items with
  | [] => Ok init
  | a :: rest => st <- body a init ;; for_each rest body st
  end.

(** The indices [0 .. n-1] of a loop over an array of length [n]. *)
Definition indices (n : nat) : list nat := seq 0 n.

(** ** Field arithmetic: [class GF256] of [src/gf256.js] *)

Module GF256.

Definition FIELD_SIZE : Z := 256.
Definition PRIMITIVE_POLY : Z := 0x11d.

(** One iteration of the loop of [multiplyWithoutTables]; the state is
    [(result, temp)]. *)
Definition multiplyWithoutTables_step (a : Z) (i : Z) (st : Z * Z) : Z * Z :=
  let '(result, temp) := st in
  let result :=
    if negb (Z.land a (Z.shiftl 1 i) =? 0) then Z.lxor result temp else result in
  let highBitSet := negb (Z.land temp 0x80 =? 0) in
  let temp := Z.land (Z.shiftl temp 1) 0xff in
  let temp :=
    if highBitSet then Z.lxor temp (Z.land PRIMITIVE_POLY 0xff) else temp in
  (result, temp).

Definition multiplyWithoutTables (a b : Z) : Z :=
  fst (for_loop 0 8 (multiplyWithoutTables_step a) (0, b)).

(** The state of both table loops is [(table, x)]. *)
Definition initLogTable : list Z :=
  let table := repeat 0 256 in
  fst (for_loop 0 255
         (fun i '(table, x) => (set table x i, multiplyWithoutTables x 2))
         (table, 1)).

Definition initExpTable : list Z :=
  let table := repeat 0 256 in
  let table :=
    fst (for_loop 0 255
           (fun i '(table, x) => (set table i x, multiplyWithoutTables x 2))
           (table, 1)) in
  set table 255 (get table 0).

(** The static fields, evaluated once when the class is loaded. *)
Definition LOG_TABLE : list Z := Eval vm_compute in initLogTable.
Definition EXP_TABLE : list Z := Eval vm_compute in initExpTable.

Definition multiply (a b : Z) : Z :=
  if (a =? 0) || (b =? 0) then u8 0
  else
    let logA := get LOG_TABLE a in
    let logB := get LOG_TABLE b in
    let sumLog := Z.rem (logA + logB) 255 in
    u8 (get EXP_TABLE sumLog).

Definition add (a b : Z) : Z := u8 (Z.lxor a b).

Definition subtract (a b : Z) : Z := add a b.

(** An infinite product has remainder [NaN], and [EXP_TABLE[NaN]] is
    [undefined], stored as [0]. *)
Definition pow (base exp : Z) : Z :=
  if base =? 0 then u8 0
  else if exp =? 0 then u8 1
  else
    let logBase := get LOG_TABLE base in
    match number_mul logBase exp with
    | Some product =>
        let resultLog := Z.rem product 255 in
        u8 (get EXP_TABLE resultLog)
    | None => u8 0
    end.

Definition inverse (a : Z) : result Z :=
  if a =? 0 then Throw (Error "Division by zero")
  else if a =? 1 then Ok (u8 1)
  else
    let logA := get LOG_TABLE a in
    let invLog := Z.rem (255 - logA) 255 in
    Ok (u8 (get EXP_TABLE invLog)).

End GF256.

(** ** Node library model: hex strings, [Buffer] and [crypto] *)

Definition hex_chars : list ascii := list_ascii_of_string "0123456789abcdef".

Definition hex_digit (n : Z) : ascii := nth (Z.to_nat n) hex_chars "0"%char.

(** [buffer.toString("hex")] and [hash.digest("hex")]: two lower-case digits
    per byte. *)
Fixpoint to_hex (bytes : list Z) : string :=
  match bytes with
  | [] => EmptyString
  | b :: rest =>
      String (hex_digit (b / 16)) (String (hex_digit (b mod 16)) (to_hex rest))
  end.

(** Value of a hexadecimal digit of either case. *)
Definition unhex (c : ascii) : option Z :=
  let n := Z.of_nat (nat_of_ascii c) in
  if (48 <=? n) && (n <=? 57) then Some (n - 48)
  else if (97 <=? n) && (n <=? 102) then Some (n - 87)
  else if (65 <=? n) && (n <=? 70) then Some (n - 55)
  else None.

(** [Buffer.from(s, "hex")]: decodes pairs of digits and stops at the first
    pair that is not hexadecimal, or at a trailing single character. *)
Fixpoint Buffer_from_hex (s : string) : list Z :=
  match s with
  | String a (String b rest) =>
      match unhex a, unhex b with
      | Some hi, Some lo => (16 * hi + lo) :: Buffer_from_hex rest
      | _, _ => []
      end
  | _ => []
  end.

Fixpoint bytes_eqb (a b : list Z) : bool :=
  match a, b with
  | [], [] => true
  | p :: a', q :: b' => (p =? q) && bytes_eqb a' b'
  | _, _ => false
  end.

(** [crypto.timingSafeEqual(a, b)]: throws a [RangeError] when the two buffers
    differ in byte length, and compares them otherwise. *)
Definition timingSafeEqual (a b : list Z) : result bool :=
  if (length a =? length b)%nat then Ok (bytes_eqb a b)
  else Throw (RangeError "Input buffers must have the same byte length").

(** Bytes of an ASCII string, as [hash.update(string)] feeds them. *)
Definition utf8 (s : string) : list Z :=
  map (fun c => Z.of_nat (nat_of_ascii c)) (list_ascii_of_string s).

(** [crypto.randomBytes]: the oracle gives the successive draws. *)
Definition Rng : Type := nat -> Z.

(** ** Shares: [src/types.ts] *)

Inductive ShareType : Type := deviceShare | serverShare | recoveryShare.

Definition ShareType_string (t : ShareType) : string :=
  match t with
  | deviceShare => "deviceShare"
  | serverShare => "serverShare"
  | recoveryShare => "recoveryShare"
  end.

Definition ShareType_eqb (a b : ShareType) : bool :=
  match a, b with
  | deviceShare, deviceShare => true
  | serverShare, serverShare => true
  | recoveryShare, recoveryShare => true
  | _, _ => false
  end.

(** The engine works on shares whose [y] is a [Uint8Array]. *)
Record Share : Type := mkShare {
  type : ShareType;
  x : Z;
  y : list Z;
  version : Z;
  hash : string
}.

(** [{ ...share, hash: h }] and the store [share.y = bytes]. *)
Definition with_hash (share : Share) (h : string) : Share :=
  mkShare (type share) (x share) (y share) (version share) h.

Definition with_y (share : Share) (bytes : list Z) : Share :=
  mkShare (type share) (x share) bytes (version share) (hash share).

(** [shares[i]] for an index of the loops, which stay inside the array; the
    default stands for [undefined]. *)
Definition no_share : Share := mkShare deviceShare 0 [] 0 EmptyString.

Definition at_ (shares : list Share) (i : nat) : Share := nth i shares no_share.

(** The boundary form of a share, with the payload in hexadecimal. *)
Record HexShare : Type := mkHexShare {
  hex_type : ShareType;
  hex_x : Z;
  hex_y : string;
  hex_version : Z;
  hex_hash : string
}.

(** Pure and fallible loops over the indices of an array. *)
Definition for_index {St : Type} (n : nat) (body : nat -> St -> St)
    (init : St) : St :=
  fold_left (fun st i => body i st) (indices n) init.

Definition for_index_r {St : Type} (n : nat) (body : nat -> St -> result St)
    (init : St) : result St :=
  for_each (indices n) body init.

(** [array.filter(p)] for a predicate that may throw. *)
Fixpoint filter_r {A : Type} (p : A -> result bool) (l : list A)
    : result (list A) :=
  match l with
  | [] => Ok []
  | a :: rest =>
      keep <- p a ;;
      kept <- filter_r p rest ;;
      Ok (if keep then a :: kept else kept)
  end.

(** [array[k] = f(array[k])] on an existing element. *)
Fixpoint update_nth {A : Type} (n : nat) (f : A -> A) (l : list A) : list A :=
  match l, n with
  | [], _ => []
  | h :: t, O => f h :: t
  | h :: t, S n' => h :: update_nth n' f t
  end.

(** ** The engine: [class KeySharing] of [src/keySharing.ts] *)

Module KeySharing.
Section Engine.

(** SHA-256 of Node's [crypto] module, from message bytes to digest bytes. *)
Variable sha256 : list Z -> list Z.

Definition getSecureRandomByte (rng : Rng) : Z * Rng :=
  (u8 (rng O), fun n => rng (S n)).

Definition calculateShareHash (share : Share) : string :=
  to_hex (sha256 ([u8 (x share)] ++ y share ++ utf8 (ShareType_string (type share)))).

Definition shareTypes : list ShareType :=
  [deviceShare; serverShare; recoveryShare].

(** The state of the outer loop is [(shares, rng)]; [shares[i - 1]] is missing
    exactly when the array is still shorter, and is then appended. *)
Definition split (privateKey : list Z) (rng : Rng) : list Share * Rng :=
  let shares : list Share := [] in
  let version := 1 in
  let '(shares, rng) :=
    for_index (length privateKey) (fun byteIndex '(shares, rng) =>
      let coefficients := repeat 0 2 in
      let coefficients := set coefficients 0 (u8 (nth byteIndex privateKey 0)) in
      let '(r, rng) := getSecureRandomByte rng in
      let coefficients := set coefficients 1 (u8 r) in
      let shares :=
        for_loop 1 3 (fun i shares =>
          let shares :=
            match nth_error shares (Z.to_nat (i - 1)) with
            | Some _ => shares
            | None =>
                shares ++
                [mkShare (nth (Z.to_nat (i - 1)) shareTypes recoveryShare) i
                         (repeat 0 (length privateKey)) version EmptyString]
            end in
          let evaluation :=
            for_loop 0 (length coefficients) (fun j evaluation =>
              let term := GF256.multiply (get coefficients j) (GF256.pow i j) in
              GF256.add evaluation term) (u8 0) in
          update_nth (Z.to_nat (i - 1))
            (fun share => with_y share (set_nth byteIndex (u8 evaluation) (y share)))
            shares) shares in
      (shares, rng)) (shares, rng) in
  (map (fun share => with_hash share (calculateShareHash share)) shares, rng).

Definition verifyShare (share : Share) : result bool :=
  if (hash share =? "")%string then Ok false
  else
    let calculatedHash := calculateShareHash share in
    timingSafeEqual (Buffer_from_hex calculatedHash) (Buffer_from_hex (hash share)).

Definition reconstruct (shares : list Share) : result (list Z) :=
  if (length shares <? 2)%nat then
    Throw (Error "Need at least 2 shares to reconstruct")
  else
  invalidShares <-
    filter_r (fun share => ok <- verifyShare share ;; Ok (negb ok)) shares ;;
  if (0 <? length invalidShares)%nat then
    Throw (Error "Invalid or tampered shares detected")
  else
  let versions := nodup Z.eq_dec (map version shares) in
  if (1 <? length versions)%nat then
    Throw (Error "Incompatible share versions")
  else
  let secretLength := length (y (at_ shares 0)) in
  let reconstructed := repeat 0 secretLength in
  for_index_r secretLength (fun byteIndex reconstructed =>
    result <-
      for_index_r (length shares) (fun i result =>
        term <-
          for_index_r (length shares) (fun j term =>
            if (i =? j)%nat then Ok term
            else
              let numerator := GF256.subtract 0 (x (at_ shares j)) in
              let denominator :=
                GF256.subtract (x (at_ shares i)) (x (at_ shares j)) in
              inv <- GF256.inverse denominator ;;
              let factor := GF256.multiply numerator inv in
              Ok (GF256.multiply term factor))
            (u8 (nth byteIndex (y (at_ shares i)) 0)) ;;
        Ok (GF256.add result term))
        (u8 0) ;;
    Ok (set_nth byteIndex (u8 result) reconstructed))
    reconstructed.

Definition generateCompatibleShare (privateKey : list Z)
    (existingShares : list Share) (shareType : ShareType) : result Share :=
  if (length existingShares <? 2)%nat then
    Throw (Error "Need at least 2 existing shares to generate compatible share")
  else
  invalidShares <-
    filter_r (fun share => ok <- verifyShare share ;; Ok (negb ok))
      existingShares ;;
  if (0 <? length invalidShares)%nat then
    Throw (Error "Invalid or tampered shares detected")
  else
  let versions := nodup Z.eq_dec (map version existingShares) in
  if (1 <? length versions)%nat then
    Throw (Error "Incompatible share versions")
  else
  let newShare :=
    mkShare shareType
      (match shareType with
       | deviceShare => 1
       | serverShare => 2
       | recoveryShare => 3
       end)
      (repeat 0 (length privateKey))
      (version (at_ existingShares 0))
      EmptyString in
  newShare <-
    for_index_r (length privateKey) (fun byteIndex newShare =>
      result <-
        for_index_r (length existingShares) (fun i result =>
          term <-
            for_index_r (length existingShares) (fun j term =>
              if (i =? j)%nat then Ok term
              else
                let numerator :=
                  GF256.subtract (x newShare) (x (at_ existingShares j)) in
                let denominator :=
                  GF256.subtract (x (at_ existingShares i))
                                 (x (at_ existingShares j)) in
                inv <- GF256.inverse denominator ;;
                let factor := GF256.multiply numerator inv in
                Ok (GF256.multiply term factor))
              (u8 (nth byteIndex (y (at_ existingShares i)) 0)) ;;
          Ok (GF256.add result term))
          (u8 0) ;;
      Ok (with_y newShare (set_nth byteIndex (u8 result) (y newShare))))
      newShare ;;
  Ok (with_hash newShare (calculateShareHash newShare)).

(** The comparison of the variant of [verifyShare] written against CryptoJS
    (the second [KeySharing] class in the sources): a length mismatch answers
    [false], and the loop ORs the XOR of the character codes.  That variant
    digests another encoding of the same three fields, also into 64
    hexadecimal characters; only its comparison is modelled, over the tag of
    this build. *)
Definition verifyShare_cryptojs (share : Share) : result bool :=
  if (hash share =? "")%string then Ok false
  else
    let calculatedHash := calculateShareHash share in
    if negb (String.length calculatedHash =? String.length (hash share))%nat
    then Ok false
    else
      let result :=
        for_index (String.length calculatedHash) (fun i result =>
          Z.lor result
            (Z.lxor (Z.of_nat (nat_of_ascii (nth i (list_ascii_of_string calculatedHash) zero)))
                    (Z.of_nat (nat_of_ascii (nth i (list_ascii_of_string (hash share)) zero)))))
          0 in
      Ok (result =? 0).

End Engine.
End KeySharing.

(** ** The share-derivation entry point of [src/keyManager.ts] *)

Module KeyManager.
Section Manager.

Variable sha256 : list Z -> list Z.

Definition allTypes : list ShareType :=
  [deviceShare; serverShare; recoveryShare].

(** [Buffer.from(share.y, "hex")] on the way in. *)
Definition process (share : HexShare) : Share :=
  mkShare (hex_type share) (hex_x share) (Buffer_from_hex (hex_y share))
          (hex_version share) (hex_hash share).

Definition message (e : exn) : string :=
  match e with
  | Error m => m
  | RangeError m => m
  end.

(** [new TextEncoder().encode(s)] and [new TextDecoder().decode(bytes)] of the
    platform. *)
Variable encode : string -> list Z.
Variable decode : list Z -> string.

(** [totalShares] and [threshold] are validated and then unused.  The state of
    the random source is returned beside the outcome. *)
Definition splitKey (privateKey : string) (totalShares threshold : Z)
    (rng : Rng) : result (list HexShare) * Rng :=
  let attempt :=
    if (privateKey =? "")%string then
      (Throw (Error "Private key is required"), rng)
    else if totalShares <? threshold then
      (Throw (Error "Total shares must be greater than or equal to threshold"), rng)
    else if threshold <? 2 then
      (Throw (Error "Threshold must be at least 2"), rng)
    else
      let privateKeyBytes := encode privateKey in
      let '(shares, rng) := KeySharing.split sha256 privateKeyBytes rng in
      (Ok (map (fun share =>
                  mkHexShare (type share) (x share) (to_hex (y share))
                             (version share) (hash share)) shares), rng) in
  match attempt with
  | (Ok shares, rng) => (Ok shares, rng)
  | (Throw e, rng) =>
      (Throw (Error ("Failed to split key: " ++ message e)%string), rng)
  end.

(** [Array.isArray(shares)] holds of every array of shares. *)
Definition combineShares (shares : list HexShare) : result string :=
  let attempt :=
    if (length shares <? 2)%nat then
      Throw (Error "At least 2 valid shares are required")
    else
      let processedShares := map process shares in
      reconstructedBytes <- KeySharing.reconstruct sha256 processedShares ;;
      Ok (decode reconstructedBytes) in
  match attempt with
  | Ok key => Ok key
  | Throw e => Throw (Error ("Failed to combine shares: " ++ message e)%string)
  end.

(** The body of [try] is [attempt]; [catch] rewraps the message.  The test
    [!share1 || !share2] is false on any two share objects. *)
Definition generateNewShareFromTwo (share1 share2 : HexShare)
    : result HexShare :=
  let attempt :=
    let processedShare1 := process share1 in
    let processedShare2 := process share2 in
    let existingTypes := [type processedShare1; type processedShare2] in
    let missingType :=
      find (fun t => negb (existsb (ShareType_eqb t) existingTypes)) allTypes in
    match missingType with
    | None => Throw (Error "Could not determine missing share type")
    | Some missingType =>
        newShare <-
          KeySharing.generateCompatibleShare sha256 (y processedShare1)
            [processedShare1; processedShare2] missingType ;;
        Ok (mkHexShare (type newShare) (x newShare) (to_hex (y newShare))
                       (version newShare) (hash newShare))
    end in
  match attempt with
  | Ok share => Ok share
  | Throw e => Throw (Error ("Failed to generate new share: " ++ message e)%string)
  end.

End Manager.
End KeyManager.

(** ** The variant of the engine written against CryptoJS

    The second [KeySharing] class of the sources differs from the first in its
    tag: the fields are digested through CryptoJS word arrays, and the stored
    tag is compared as a string, in a loop of its own. *)

Module KeySharingCryptoJS.
Section Engine.

Variable sha256 : list Z -> list Z.

(** The four bytes of a 32-bit word of a [WordArray], most significant
    first. *)
Definition word_bytes (w : Z) : list Z :=
  [(w / 2 ^ 24) mod 256; (w / 2 ^ 16) mod 256; (w / 2 ^ 8) mod 256; w mod 256].

(** [WordArray.create(numbers)] takes each number as one word, so the
    coordinate and every payload byte are digested as four bytes. *)
Definition calculateShareHash (share : Share) : string :=
  let xData := word_bytes (x share) in
  let yData := flat_map word_bytes (y share) in
  to_hex (sha256 (xData ++ yData ++ utf8 (ShareType_string (type share)))).

(** [s.charCodeAt(i)] inside the string. *)
Definition charCodeAt (s : string) (i : nat) : Z :=
  Z.of_nat (nat_of_ascii (nth i (list_ascii_of_string s) zero)).

Definition verifyShare (share : Share) : bool :=
  if (hash share =? "")%string then false
  else
    let calculatedHash := calculateShareHash share in
    if negb (String.length calculatedHash =? String.length (hash share))%nat
    then false
    else
      let result :=
        for_index (String.length calculatedHash) (fun i result =>
          Z.lor result
            (Z.lxor (charCodeAt calculatedHash i) (charCodeAt (hash share) i)))
          0 in
      result =? 0.

End Engine.
End KeySharingCryptoJS.

(** ** The demo driver: [main] of [src/example.ts]

    The outcome collects the values that [main] logs, in order: the shares,
    the key reconstructed from the first two, the share derived from them, and
    the key reconstructed from those two and the derived share.  A [Throw] is
    the [catch] branch, which logs the message. *)

Module Example.
Section Driver.

Variable sha256 : list Z -> list Z.
Variable encode : string -> list Z.
Variable decode : list Z -> string.

Definition no_hex_share : HexShare :=
  mkHexShare deviceShare 0 EmptyString 0 EmptyString.

Definition main (PRIVATE_KEY : option string) (rng : Rng)
    : result (list HexShare * string * HexShare * string) :=
  match PRIVATE_KEY with
  | None => Throw (Error "PRIVATE_KEY not found in environment variables")
  | Some privateKey =>
      if (privateKey =? "")%string then
        Throw (Error "PRIVATE_KEY not found in environment variables")
      else
        shares <- fst (KeyManager.splitKey sha256 encode privateKey 3 2 rng) ;;
        reconstructedKey <-
          KeyManager.combineShares sha256 decode (firstn 2 shares) ;;
        newShare <-
          KeyManager.generateNewShareFromTwo sha256
            (nth 0 shares no_hex_share) (nth 1 shares no_hex_share) ;;
        reconstructedWithNew <-
          KeyManager.combineShares sha256 decode
            [nth 0 shares no_hex_share; nth 1 shares no_hex_share; newShare] ;;
        Ok (shares, reconstructedKey, newShare, reconstructedWithNew)
  end.

End Driver.
End Example.

(** ** Auxiliary notions used by the statements and proofs *)

(** All byte values, and the checks run over them. *)
Definition all_bytes : list Z := map Z.of_nat (seq 0 256).

Definition log_exp_ok (a : Z) : bool :=
  (a =? 0) ||
  ((0 <=? get GF256.LOG_TABLE a) && (get GF256.LOG_TABLE a <? 255) &&
   (get GF256.EXP_TABLE (get GF256.LOG_TABLE a) =? a)).

Definition exp_log_ok (k : Z) : bool :=
  (255 <=? k) ||
  ((1 <=? get GF256.EXP_TABLE k) && (get GF256.EXP_TABLE k <? 256) &&
   (get GF256.LOG_TABLE (get GF256.EXP_TABLE k) =? k)).

Definition multiply_agree_ok (a : Z) : bool :=
  forallb (fun b => GF256.multiply a b =? GF256.multiplyWithoutTables a b) all_bytes.

Definition inverse_ok (a : Z) : bool :=
  (a =? 0) ||
  match GF256.inverse a with
  | Ok i => GF256.multiply a i =? 1
  | Throw _ => false
  end.

(** The update of [temp] in one iteration of [multiplyWithoutTables]:
    multiplication by the generator. *)
Definition next_temp (temp : Z) : Z :=
  snd (GF256.multiplyWithoutTables_step 0 0 (0, temp)).

(** The degree-1 polynomial [f(k) = s + r * k] of one byte position. *)
Definition poly (s r k : Z) : Z := Z.lxor s (GF256.multiply r k).

(** The values of the polynomials of all positions at coordinate [k], with the
    [b]-th random draw as the slope of position [b]. *)
Definition evaluations (privateKey : list Z) (rng : Rng) (k : Z) : list Z :=
  map (fun b => poly (u8 (nth b privateKey 0)) (u8 (rng b)) k)
      (seq 0 (length privateKey)).

(** The payload of coordinate [k] after [n] iterations of the outer loop of
    [split]. *)
Definition partial_y (privateKey : list Z) (rng : Rng) (k : Z) (n : nat) : list Z :=
  map (fun b => if (b <? n)%nat
                then poly (u8 (nth b privateKey 0)) (u8 (rng b)) k else 0)
      (seq 0 (length privateKey)).

Definition partial_shares (privateKey : list Z) (rng : Rng) (n : nat) : list Share :=
  match n with
  | O => []
  | S _ =>
      [mkShare deviceShare 1 (partial_y privateKey rng 1 n) 1 EmptyString;
       mkShare serverShare 2 (partial_y privateKey rng 2 n) 1 EmptyString;
       mkShare recoveryShare 3 (partial_y privateKey rng 3 n) 1 EmptyString]
  end.

(** The body of the outer loop of [split]. *)
Definition split_body (privateKey : list Z) (byteIndex : nat)
    (st : list Share * Rng) : list Share * Rng :=
  let '(shares, rng) := st in
  let coefficients := repeat 0 2 in
  let coefficients := set coefficients 0 (u8 (nth byteIndex privateKey 0)) in
  let '(r, rng) := KeySharing.getSecureRandomByte rng in
  let coefficients := set coefficients 1 (u8 r) in
  let shares :=
    for_loop 1 3 (fun i shares =>
      let shares :=
        match nth_error shares (Z.to_nat (i - 1)) with
        | Some _ => shares
        | None =>
            shares ++
            [mkShare (nth (Z.to_nat (i - 1)) KeySharing.shareTypes recoveryShare) i
                     (repeat 0 (length privateKey)) 1 EmptyString]
        end in
      let evaluation :=
        for_loop 0 (length coefficients) (fun j evaluation =>
          let term := GF256.multiply (get coefficients j) (GF256.pow i j) in
          GF256.add evaluation term) (u8 0) in
      update_nth (Z.to_nat (i - 1))
        (fun share => with_y share (set_nth byteIndex (u8 evaluation) (y share)))
        shares) shares in
  (shares, rng).

(** The interpolation loops shared by [reconstruct] (at target [0]) and
    [generateCompatibleShare] (at the coordinate of the new share). *)
Definition lagrange_term (shares : list Share) (target : Z)
    (byteIndex i : nat) : result Z :=
  for_index_r (length shares) (fun j term =>
    if (i =? j)%nat then Ok term
    else
      let numerator := GF256.subtract target (x (at_ shares j)) in
      let denominator := GF256.subtract (x (at_ shares i)) (x (at_ shares j)) in
      inv <- GF256.inverse denominator ;;
      let factor := GF256.multiply numerator inv in
      Ok (GF256.multiply term factor))
    (u8 (nth byteIndex (y (at_ shares i)) 0)).

Definition lagrange_byte (shares : list Share) (target : Z)
    (byteIndex : nat) : result Z :=
  for_index_r (length shares) (fun i result =>
    term <- lagrange_term shares target byteIndex i ;;
    Ok (GF256.add result term))
    (u8 0).

Definition lagrange (shares : list Share) (target : Z) (len : nat)
    : result (list Z) :=
  for_index_r len (fun byteIndex bytes =>
    result <- lagrange_byte shares target byteIndex ;;
    Ok (set_nth byteIndex (u8 result) bytes))
    (repeat 0 len).

(** The three precondition checks common to both operations. *)
Definition checks_pass (sha256 : list Z -> list Z) (shares : list Share) : Prop :=
  (2 <= length shares)%nat /\
  Forall (fun share => KeySharing.verifyShare sha256 share = Ok true) shares /\
  (forall a b, In a shares -> In b shares -> version a = version b).

(** The coordinate bound to each identity. *)
Definition coordinate (t : ShareType) : Z :=
  match t with
  | deviceShare => 1
  | serverShare => 2
  | recoveryShare => 3
  end.

(** A share as the engine stamps it: version 1 and the tag of its contents. *)
Definition stamped (sha256 : list Z -> list Z) (t : ShareType) (ys : list Z) : Share :=
  let share := mkShare t (coordinate t) ys 1 EmptyString in
  with_hash share (KeySharing.calculateShareHash sha256 share).

(** A share of the secret [pk] split with the draws [rng]: the stamped
    evaluations at the coordinate of its identity. *)
Definition share_of (sha256 : list Z -> list Z) (pk : list Z) (rng : Rng)
    (share : Share) : Prop :=
  exists t, share = stamped sha256 t (evaluations pk rng (coordinate t)).

(** The boundary form of a share, as [KeyManager.splitKey] hands it out:
    [{ ...share, y: Buffer.from(share.y).toString("hex") }]. *)
Definition hex_share (share : Share) : HexShare :=
  mkHexShare (type share) (x share) (to_hex (y share)) (version share) (hash share).

Definition inverse_pow_ok (a : Z) : bool :=
  (a =? 0) ||
  match GF256.inverse a with
  | Ok i => i =? GF256.pow a 254
  | Throw _ => false
  end.

(** The bytes that [calculateShareHash] digests. *)
Definition tag_input (share : Share) : list Z :=
  [u8 (x share)] ++ y share ++ utf8 (ShareType_string (type share)).

(** [{ ...share, version: v }]. *)
Definition with_version (share : Share) (v : Z) : Share :=
  mkShare (type share) (x share) (y share) v (hash share).

(** The slope that sends the secret byte [s'] to the share byte [v] at
    coordinate [k]. *)
Definition slope_for (s' v k : Z) : Z :=
  match GF256.inverse k with
  | Ok i => GF256.multiply (Z.lxor s' v) i
  | Throw _ => 0
  end.

(** The draws under which the secret [pk'] gets, at coordinate [k], the
    payload that [pk] gets under [rng]. *)
Definition hiding_rng (pk pk' : list Z) (rng : Rng) (k : Z) : Rng :=
  fun b =>
    slope_for (u8 (nth b pk' 0)) (poly (u8 (nth b pk 0)) (u8 (rng b)) k) k.

(** A share stamped at an arbitrary coordinate. *)
Definition stamped_at (sha256 : list Z -> list Z) (t : ShareType) (k : Z)
    (ys : list Z) : Share :=
  let share := mkShare t k ys 1 EmptyString in
  with_hash share (KeySharing.calculateShareHash sha256 share).

(** A 32-byte stand-in for SHA-256, for the concrete instances. *)
Definition sum_digest (m : list Z) : list Z :=
  repeat (u8 (fold_left Z.add m 0)) 32.

Definition sample_rng : Rng := fun n => 7 + 100 * Z.of_nat n.

(** Stand-ins for the text codecs on strings of 8-bit characters. *)
Definition latin_encode (s : string) : list Z := utf8 s.

Definition latin_decode (bytes : list Z) : string :=
  string_of_list_ascii (map (fun b => ascii_of_nat (Z.to_nat b)) bytes).

(** The shares of the secret [AB] under two sequences of draws. *)
Definition sample_shares : list Share :=
  fst (KeySharing.split sum_digest [0x41; 0x42] sample_rng).

Definition other_shares : list Share :=
  fst (KeySharing.split sum_digest [0x41; 0x42] (fun _ => 9)).

Arguments get : simpl never.
Arguments u8 : simpl never.
Arguments GF256.multiply : simpl never.
Arguments GF256.multiplyWithoutTables : simpl never.
Arguments GF256.add : simpl never.
Arguments GF256.subtract : simpl never.
Arguments GF256.pow : simpl never.
Arguments GF256.inverse : simpl never.

(** * Facts about bytes and loops *)

Lemma in_all_bytes (a : Z) : is_byte a -> In a all_bytes.
Proof.
  intros [Hlo Hhi]. unfold all_bytes.
  rewrite <- (Z2Nat.id a Hlo). apply in_map. apply in_seq. lia.
Qed.

Lemma forall_bytes (P : Z -> bool) :
  forallb P all_bytes = true -> forall a, is_byte a -> P a = true.
Proof.
  intros H a Ha. rewrite forallb_forall in H. apply H, in_all_bytes, Ha.
Qed.

Lemma tables_initialised :
  GF256.LOG_TABLE = GF256.initLogTable /\ GF256.EXP_TABLE = GF256.initExpTable.
Proof. split; vm_compute; reflexivity. Qed.


Lemma u8_byte (v : Z) : is_byte v -> u8 v = v.
Proof. intros H. apply Z.mod_small. exact H. Qed.

Lemma u8_is_byte (v : Z) : is_byte (u8 v).
Proof. unfold is_byte, u8. apply Z.mod_pos_bound. lia. Qed.

Lemma u8_idem (v : Z) : u8 (u8 v) = u8 v.
Proof. apply u8_byte, u8_is_byte. Qed.

Lemma byte_high_bits (a n : Z) : is_byte a -> 8 <= n -> Z.testbit a n = false.
Proof.
  intros Ha Hn. rewrite <- (Z.mod_small a (2 ^ 8)) by exact Ha.
  apply Z.mod_pow2_bits_high. lia.
Qed.

Lemma lxor_is_byte (a b : Z) : is_byte a -> is_byte b -> is_byte (Z.lxor a b).
Proof.
  intros Ha Hb.
  assert (E : Z.lxor a b = Z.lxor a b mod 2 ^ 8).
  { apply Z.bits_inj'. intros n Hn.
    destruct (Z_lt_le_dec n 8) as [Hlt | Hge].
    - now rewrite Z.mod_pow2_bits_low by lia.
    - rewrite Z.mod_pow2_bits_high by lia.
      rewrite Z.lxor_spec, (byte_high_bits a), (byte_high_bits b) by assumption.
      reflexivity. }
  rewrite E. apply Z.mod_pos_bound. lia.
Qed.

Lemma for_loop_S {St : Type} (lo : Z) (n : nat) (body : Z -> St -> St) (init : St) :
  for_loop lo (S n) body init = body (lo + Z.of_nat n) (for_loop lo n body init).
Proof.
  unfold for_loop. rewrite seq_S, map_app, fold_left_app. reflexivity.
Qed.

Lemma for_index_S {St : Type} (n : nat) (body : nat -> St -> St) (init : St) :
  for_index (S n) body init = body n (for_index n body init).
Proof.
  unfold for_index, indices. rewrite seq_S, fold_left_app. reflexivity.
Qed.

(** * The field GF(2^8) behind [GF256] *)

Section FieldFacts.

Local Notation "'mul'" := GF256.multiply.
Local Notation "'log'" := (get GF256.LOG_TABLE).
Local Notation "'exp'" := (get GF256.EXP_TABLE).

Lemma log_exp_check : forallb log_exp_ok all_bytes = true.
Proof. vm_compute. reflexivity. Qed.

Lemma exp_log_check : forallb exp_log_ok all_bytes = true.
Proof. vm_compute. reflexivity. Qed.

Lemma log_exp (a : Z) :
  is_byte a -> a <> 0 -> 0 <= log a < 255 /\ exp (log a) = a.
Proof.
  intros Ha Hnz. pose proof (forall_bytes _ log_exp_check a Ha) as H.
  unfold log_exp_ok in H.
  rewrite orb_true_iff, !andb_true_iff, !Z.eqb_eq, Z.leb_le, Z.ltb_lt in H.
  destruct H as [H | [[H1 H2] H3]]; [contradiction | auto].
Qed.

Lemma exp_log (k : Z) :
  0 <= k < 255 -> 1 <= exp k < 256 /\ log (exp k) = k.
Proof.
  intros Hk. assert (Hb : is_byte k) by (unfold is_byte; lia).
  pose proof (forall_bytes _ exp_log_check k Hb) as H.
  unfold exp_log_ok in H.
  rewrite orb_true_iff, !andb_true_iff, Z.eqb_eq, !Z.leb_le, Z.ltb_lt in H.
  destruct H as [H | [[H1 H2] H3]]; [lia | auto].
Qed.

Lemma multiply_is_byte (a b : Z) : is_byte (mul a b).
Proof.
  unfold GF256.multiply. destruct ((a =? 0) || (b =? 0)); apply u8_is_byte.
Qed.

Lemma multiply_comm (a b : Z) : mul a b = mul b a.
Proof.
  unfold GF256.multiply. rewrite orb_comm, Z.add_comm. reflexivity.
Qed.

Lemma multiply_0_l (b : Z) : mul 0 b = 0.
Proof. reflexivity. Qed.

Lemma multiply_0_r (a : Z) : mul a 0 = 0.
Proof. rewrite multiply_comm. reflexivity. Qed.

(** On non-zero bytes the product is the antilogarithm of the sum of the
    logarithms, and is itself a non-zero byte. *)
Lemma multiply_nonzero (a b : Z) :
  is_byte a -> is_byte b -> a <> 0 -> b <> 0 ->
  mul a b = exp ((log a + log b) mod 255) /\
  1 <= mul a b < 256 /\
  log (mul a b) = (log a + log b) mod 255.
Proof.
  intros Ha Hb Hna Hnb.
  destruct (log_exp a Ha Hna) as [Hla _], (log_exp b Hb Hnb) as [Hlb _].
  assert (Hk : 0 <= (log a + log b) mod 255 < 255) by (apply Z.mod_pos_bound; lia).
  destruct (exp_log _ Hk) as [Hr Hl].
  assert (E : mul a b = exp ((log a + log b) mod 255)).
  { unfold GF256.multiply.
    destruct (Z.eqb_spec a 0); [contradiction |].
    destruct (Z.eqb_spec b 0); [contradiction |]. cbn [orb].
    rewrite Z.rem_mod_nonneg by lia. apply u8_byte. unfold is_byte. lia. }
  rewrite E. auto.
Qed.

Lemma multiply_assoc (a b c : Z) :
  is_byte a -> is_byte b -> is_byte c -> mul (mul a b) c = mul a (mul b c).
Proof.
  intros Ha Hb Hc.
  destruct (Z.eq_dec a 0) as [-> | Hna]; [reflexivity |].
  destruct (Z.eq_dec b 0) as [-> | Hnb];
    [now rewrite multiply_0_r, !multiply_0_l, multiply_0_r |].
  destruct (Z.eq_dec c 0) as [-> | Hnc]; [now rewrite !multiply_0_r |].
  destruct (multiply_nonzero a b Ha Hb Hna Hnb) as (_ & Rab & Lab).
  destruct (multiply_nonzero b c Hb Hc Hnb Hnc) as (_ & Rbc & Lbc).
  destruct (multiply_nonzero (mul a b) c (multiply_is_byte a b) Hc) as (E1 & _);
    [lia | assumption |].
  destruct (multiply_nonzero a (mul b c) Ha (multiply_is_byte b c)) as (E2 & _);
    [assumption | lia |].
  rewrite E1, E2, Lab, Lbc.
  rewrite Z.add_mod_idemp_l, Z.add_mod_idemp_r by lia.
  now rewrite Z.add_assoc.
Qed.

Lemma multiply_1_r (a : Z) : is_byte a -> mul a 1 = a.
Proof.
  intros Ha. destruct (Z.eq_dec a 0) as [-> | Hna]; [reflexivity |].
  destruct (log_exp a Ha Hna) as [Hla Hea].
  destruct (multiply_nonzero a 1 Ha) as (E & _); [unfold is_byte; lia | assumption | lia |].
  rewrite E. change (log 1) with 0.
  rewrite Z.add_0_r, Z.mod_small by lia. exact Hea.
Qed.

Lemma multiply_1_l (a : Z) : is_byte a -> mul 1 a = a.
Proof. intros Ha. rewrite multiply_comm. now apply multiply_1_r. Qed.

End FieldFacts.

(** ** Linearity of the shift-and-XOR product, and distributivity *)

(** Equalities between XOR combinations, decided bit by bit. *)
Ltac xor_bits :=
  apply Z.bits_inj'; intros ?n ?Hn;
  rewrite ?Z.lxor_spec, ?Z.bits_0;
  repeat match goal with
         | |- context [Z.testbit ?v ?k] => destruct (Z.testbit v k)
         end;
  reflexivity.

Lemma bit_test (a i : Z) :
  0 <= i -> negb (Z.land a (Z.shiftl 1 i) =? 0) = Z.testbit a i.
Proof.
  intros Hi. rewrite Z.shiftl_1_l.
  destruct (Z.testbit a i) eqn:E.
  - destruct (Z.eqb_spec (Z.land a (2 ^ i)) 0) as [H0 | _]; [| reflexivity].
    assert (F : Z.testbit (Z.land a (2 ^ i)) i = true)
      by now rewrite Z.land_spec, E, Z.pow2_bits_true.
    rewrite H0, Z.bits_0 in F. discriminate.
  - assert (H0 : Z.land a (2 ^ i) = 0).
    { apply Z.bits_inj'. intros n Hn.
      rewrite Z.land_spec, Z.bits_0, Z.pow2_bits_eqb by assumption.
      destruct (Z.eqb_spec i n) as [-> | _]; [now rewrite E | apply andb_false_r]. }
    now rewrite H0.
Qed.

Lemma multiplyWithoutTables_step_eq (a i r t : Z) :
  0 <= i ->
  GF256.multiplyWithoutTables_step a i (r, t) =
  (if Z.testbit a i then Z.lxor r t else r, next_temp t).
Proof.
  intros Hi. unfold next_temp, GF256.multiplyWithoutTables_step.
  rewrite bit_test by assumption. reflexivity.
Qed.

Lemma multiplyWithoutTables_loop_linear (a1 a2 : Z) (steps : list Z) :
  Forall (fun i => 0 <= i) steps ->
  forall r1 r2 t,
    let run a r :=
      fold_left (fun st i => GF256.multiplyWithoutTables_step a i st) steps (r, t) in
    run (Z.lxor a1 a2) (Z.lxor r1 r2) =
    (Z.lxor (fst (run a1 r1)) (fst (run a2 r2)), snd (run a1 r1)) /\
    snd (run a1 r1) = snd (run a2 r2).
Proof.
  induction 1 as [| i steps Hi _ IH]; intros r1 r2 t; cbn zeta.
  - split; reflexivity.
  - cbn [fold_left]. rewrite !multiplyWithoutTables_step_eq by assumption.
    rewrite Z.lxor_spec.
    specialize (IH (if Z.testbit a1 i then Z.lxor r1 t else r1)
                   (if Z.testbit a2 i then Z.lxor r2 t else r2) (next_temp t)).
    cbn zeta in IH.
    replace (if xorb (Z.testbit a1 i) (Z.testbit a2 i)
             then Z.lxor (Z.lxor r1 r2) t else Z.lxor r1 r2)
      with (Z.lxor (if Z.testbit a1 i then Z.lxor r1 t else r1)
                   (if Z.testbit a2 i then Z.lxor r2 t else r2)).
    + exact IH.
    + destruct (Z.testbit a1 i), (Z.testbit a2 i); cbn [xorb]; xor_bits.
Qed.

Lemma multiplyWithoutTables_xor (a1 a2 b : Z) :
  GF256.multiplyWithoutTables (Z.lxor a1 a2) b =
  Z.lxor (GF256.multiplyWithoutTables a1 b) (GF256.multiplyWithoutTables a2 b).
Proof.
  unfold GF256.multiplyWithoutTables, for_loop.
  destruct (multiplyWithoutTables_loop_linear a1 a2
              (map (fun k => 0 + Z.of_nat k) (seq 0 8))) with (r1 := 0) (r2 := 0) (t := b)
    as [E _].
  - cbn [seq map]. repeat constructor; lia.
  - change (Z.lxor 0 0) with 0 in E. rewrite E. reflexivity.
Qed.

Lemma multiply_agree_check : forallb multiply_agree_ok all_bytes = true.
Proof. vm_compute. reflexivity. Qed.

Lemma multiply_agree (a b : Z) :
  is_byte a -> is_byte b -> GF256.multiply a b = GF256.multiplyWithoutTables a b.
Proof.
  intros Ha Hb. pose proof (forall_bytes _ multiply_agree_check a Ha) as H.
  unfold multiply_agree_ok in H.
  apply Z.eqb_eq. exact (forall_bytes _ H b Hb).
Qed.

Lemma multiply_xor_l (a b c : Z) :
  is_byte a -> is_byte b -> is_byte c ->
  GF256.multiply (Z.lxor a b) c =
  Z.lxor (GF256.multiply a c) (GF256.multiply b c).
Proof.
  intros Ha Hb Hc.
  rewrite !multiply_agree by (try apply lxor_is_byte; assumption).
  apply multiplyWithoutTables_xor.
Qed.

Lemma multiply_xor_r (a b c : Z) :
  is_byte a -> is_byte b -> is_byte c ->
  GF256.multiply c (Z.lxor a b) =
  Z.lxor (GF256.multiply c a) (GF256.multiply c b).
Proof.
  intros Ha Hb Hc.
  rewrite (multiply_comm c), (multiply_comm c a), (multiply_comm c b).
  now apply multiply_xor_l.
Qed.

(** ** Inverses *)

Lemma inverse_check : forallb inverse_ok all_bytes = true.
Proof. vm_compute. reflexivity. Qed.

Lemma inverse_is_byte (a i : Z) : GF256.inverse a = Ok i -> is_byte i.
Proof.
  unfold GF256.inverse.
  destruct (a =? 0); [discriminate |].
  destruct (a =? 1); intros [= <-]; apply u8_is_byte.
Qed.

Lemma inverse_nonzero (a : Z) :
  is_byte a -> a <> 0 ->
  exists i, GF256.inverse a = Ok i /\ is_byte i /\ GF256.multiply a i = 1.
Proof.
  intros Ha Hna. pose proof (forall_bytes _ inverse_check a Ha) as H.
  unfold inverse_ok in H. rewrite orb_true_iff, Z.eqb_eq in H.
  destruct H as [H | H]; [contradiction |].
  destruct (GF256.inverse a) as [i |] eqn:E; [| discriminate].
  exists i. repeat split; try (eapply inverse_is_byte; eassumption).
  now apply Z.eqb_eq.
Qed.

(** ** Interpolation of a line through two points *)

Section Line.

Local Notation "'mul'" := GF256.multiply.

Variables s r xi xj t e : Z.
Hypothesis Hs : is_byte s.
Hypothesis Hr : is_byte r.
Hypothesis Hxi : is_byte xi.
Hypothesis Hxj : is_byte xj.
Hypothesis Ht : is_byte t.
Hypothesis He : is_byte e.
Hypothesis Hinv : mul (Z.lxor xi xj) e = 1.

Let A := mul (Z.lxor t xj) e.
Let B := mul (Z.lxor t xi) e.

Lemma line_weights_sum : Z.lxor A B = 1.
Proof.
  unfold A, B. rewrite <- multiply_xor_l by (try apply lxor_is_byte; assumption).
  replace (Z.lxor (Z.lxor t xj) (Z.lxor t xi)) with (Z.lxor xi xj) by xor_bits.
  exact Hinv.
Qed.

Lemma line_weights_moment : Z.lxor (mul xi A) (mul xj B) = t.
Proof.
  unfold A, B.
  rewrite <- !multiply_assoc by (try apply lxor_is_byte; assumption).
  rewrite <- multiply_xor_l by (try apply multiply_is_byte; assumption).
  rewrite !multiply_xor_r by assumption.
  rewrite (multiply_comm xj xi).
  replace (Z.lxor (Z.lxor (mul xi t) (mul xi xj)) (Z.lxor (mul xj t) (mul xi xj)))
    with (Z.lxor (mul xi t) (mul xj t)) by xor_bits.
  rewrite <- multiply_xor_l by assumption.
  rewrite (multiply_comm (Z.lxor xi xj) t).
  rewrite multiply_assoc by (try apply lxor_is_byte; assumption).
  rewrite Hinv. now apply multiply_1_r.
Qed.

(** Lagrange interpolation at [t] of the line [s + r * k] through its points
    at [xi] and [xj] gives its value at [t]. *)
Lemma line_interpolation :
  Z.lxor (mul (poly s r xi) A) (mul (poly s r xj) B) = poly s r t.
Proof.
  assert (HA : is_byte A) by apply multiply_is_byte.
  assert (HB : is_byte B) by apply multiply_is_byte.
  unfold poly.
  rewrite !multiply_xor_l by (try apply multiply_is_byte; assumption).
  rewrite !multiply_assoc by assumption.
  replace (Z.lxor (Z.lxor (mul s A) (mul r (mul xi A)))
                  (Z.lxor (mul s B) (mul r (mul xj B))))
    with (Z.lxor (Z.lxor (mul s A) (mul s B))
                 (Z.lxor (mul r (mul xi A)) (mul r (mul xj B)))) by xor_bits.
  rewrite <- !multiply_xor_r by (try apply multiply_is_byte; assumption).
  rewrite line_weights_sum, line_weights_moment.
  now rewrite multiply_1_r.
Qed.

End Line.

(** ** The loops of [split] *)

Lemma set_nth_map_seq (f : nat -> Z) (v : Z) :
  forall n a k,
    set_nth k v (map f (seq a n)) =
    map (fun b => if (b =? a + k)%nat then v else f b) (seq a n).
Proof.
  induction n as [| n IH]; intros a k; [destruct k; reflexivity |].
  cbn [seq map]. destruct k as [| k]; cbn [set_nth].
  - rewrite Nat.add_0_r, Nat.eqb_refl. f_equal.
    apply map_ext_in. intros b Hb. apply in_seq in Hb.
    destruct (Nat.eqb_spec b a); [lia | reflexivity].
  - destruct (Nat.eqb_spec a (a + S k)); [lia |]. f_equal.
    rewrite IH. apply map_ext. intros b.
    now replace (S a + k)%nat with (a + S k)%nat by lia.
Qed.

Lemma partial_y_0 pk rng k : partial_y pk rng k 0 = repeat 0 (length pk).
Proof.
  unfold partial_y. generalize 0%nat at 2. 
  induction (length pk) as [| n IH]; intros a; [reflexivity |].
  cbn [seq map repeat]. f_equal. apply IH.
Qed.

Lemma partial_y_S pk rng k n :
  (n < length pk)%nat ->
  set_nth n (poly (u8 (nth n pk 0)) (u8 (rng n)) k) (partial_y pk rng k n) =
  partial_y pk rng k (S n).
Proof.
  intros Hn. unfold partial_y. rewrite set_nth_map_seq.
  apply map_ext. intros b. cbn [Nat.add].
  destruct (Nat.eqb_spec b n) as [-> | Hne].
  - destruct (Nat.ltb_spec n (S n)); [reflexivity | lia].
  - destruct (Nat.ltb_spec b n), (Nat.ltb_spec b (S n)); try reflexivity; lia.
Qed.

Lemma partial_y_full pk rng k :
  partial_y pk rng k (length pk) = evaluations pk rng k.
Proof.
  unfold partial_y, evaluations. apply map_ext_in. intros b Hb.
  apply in_seq in Hb. destruct (Nat.ltb_spec b (length pk)); [reflexivity | lia].
Qed.

Lemma poly_is_byte s r k : is_byte s -> is_byte (poly s r k).
Proof. intros Hs. apply lxor_is_byte; [assumption | apply multiply_is_byte]. Qed.

Lemma evaluation_eq (c0 c1 i : Z) :
  is_byte c0 -> is_byte c1 -> i = 1 \/ i = 2 \/ i = 3 ->
  for_loop 0 (length (set (set (repeat 0 2) 0 c0) 1 c1)) (fun j evaluation =>
      let term := GF256.multiply (get (set (set (repeat 0 2) 0 c0) 1 c1) j) (GF256.pow i j) in
      GF256.add evaluation term) (u8 0)
  = poly c0 c1 i.
Proof.
  intros H0 H1 Hi.
  change (set (set (repeat 0 2) 0 c0) 1 c1) with [c0; c1].
  unfold for_loop. cbn [length seq map fold_left].
  change (get [c0; c1] (0 + Z.of_nat 0)) with c0.
  change (get [c0; c1] (0 + Z.of_nat 1)) with c1.
  assert (P0 : GF256.pow i (0 + Z.of_nat 0) = 1)
    by (destruct Hi as [-> | [-> | ->]]; reflexivity).
  assert (P1 : GF256.pow i (0 + Z.of_nat 1) = i)
    by (destruct Hi as [-> | [-> | ->]]; reflexivity).
  rewrite P0, P1, multiply_1_r by assumption.
  unfold GF256.add. change (u8 0) with 0. rewrite Z.lxor_0_l.
  rewrite (u8_byte c0) by assumption.
  apply u8_byte. now apply poly_is_byte.
Qed.

Lemma for_loop_1_3 {St : Type} (body : Z -> St -> St) (init : St) :
  for_loop 1 3 body init = body 3 (body 2 (body 1 init)).
Proof. reflexivity. Qed.

Lemma split_body_step pk rng rng_n n :
  (n < length pk)%nat -> rng_n O = rng n ->
  split_body pk n (partial_shares pk rng n, rng_n) =
  (partial_shares pk rng (S n), fun m => rng_n (S m)).
Proof.
  intros Hn Hr. unfold split_body, KeySharing.getSecureRandomByte.
  rewrite u8_idem, Hr.
  set (c0 := u8 (nth n pk 0)). set (c1 := u8 (rng n)).
  assert (E : forall i, i = 1 \/ i = 2 \/ i = 3 ->
     for_loop 0 (length (set (set (repeat 0 2) 0 c0) 1 c1)) (fun j evaluation =>
      let term := GF256.multiply (get (set (set (repeat 0 2) 0 c0) 1 c1) j) (GF256.pow i j) in
      GF256.add evaluation term) (u8 0) = poly c0 c1 i).
  { intros i Hi. apply evaluation_eq; unfold c0, c1; auto using u8_is_byte. }
  cbv zeta in E |- *.
  rewrite for_loop_1_3. cbv beta.
  rewrite (E 1), (E 2), (E 3) by auto.
  rewrite !u8_byte by (apply poly_is_byte; apply u8_is_byte).
  change (Z.to_nat (1 - 1)) with 0%nat.
  change (Z.to_nat (2 - 1)) with 1%nat.
  change (Z.to_nat (3 - 1)) with 2%nat.
  f_equal. unfold c0, c1.
  destruct n as [| n].
  - cbn [partial_shares nth_error app update_nth with_y type x y version hash
         nth KeySharing.shareTypes].
    rewrite <- !(partial_y_S pk rng _ 0 Hn), !partial_y_0. reflexivity.
  - cbn [partial_shares nth_error app update_nth with_y type x y version hash].
    rewrite !(partial_y_S pk rng _ (S n) Hn). reflexivity.
Qed.

Lemma split_loop pk rng n :
  (n <= length pk)%nat ->
  exists rng_n,
    for_index n (split_body pk) ([], rng) = (partial_shares pk rng n, rng_n) /\
    forall m, rng_n m = rng (n + m)%nat.
Proof.
  induction n as [| n IH]; intros Hn.
  - exists rng. split; reflexivity.
  - destruct IH as (rng_n & E & Hr); [lia |].
    exists (fun m => rng_n (S m)). split.
    + rewrite for_index_S, E. apply split_body_step; [lia |].
      now rewrite Hr, Nat.add_0_r.
    + intros m. rewrite Hr. f_equal. lia.
Qed.

(** * The engine *)

Section EngineFacts.

(** SHA-256 stays a parameter; only the size of its digests matters. *)
Variable sha256 : list Z -> list Z.

Lemma split_unfold pk rng :
  KeySharing.split sha256 pk rng =
  let '(shares, rng) := for_index (length pk) (split_body pk) ([], rng) in
  (map (fun share => with_hash share (KeySharing.calculateShareHash sha256 share)) shares, rng).
Proof. reflexivity. Qed.

Lemma split_nil rng : fst (KeySharing.split sha256 [] rng) = [].
Proof. reflexivity. Qed.

Lemma split_eq pk rng :
  pk <> [] ->
  fst (KeySharing.split sha256 pk rng) =
  [stamped sha256 deviceShare (evaluations pk rng 1);
   stamped sha256 serverShare (evaluations pk rng 2);
   stamped sha256 recoveryShare (evaluations pk rng 3)].
Proof.
  intros Hne. rewrite split_unfold.
  destruct (split_loop pk rng (length pk) (le_n _)) as (rng_n & E & _).
  rewrite E. destruct pk as [| p pk']; [contradiction |].
  cbn [length partial_shares map fst].
  rewrite !(partial_y_full (p :: pk')). reflexivity.
Qed.

(** ** Integrity tags *)

Hypothesis sha256_length : forall m, length (sha256 m) = 32%nat.

Lemma bytes_eqb_eq (a b : list Z) : bytes_eqb a b = true <-> a = b.
Proof.
  revert b. induction a as [| p a IH]; intros [| q b]; cbn [bytes_eqb];
    try (split; [discriminate | congruence]); [tauto |].
  rewrite andb_true_iff, Z.eqb_eq, IH. split; [intros [-> ->] | intros [= -> ->]]; auto.
Qed.

Lemma to_hex_nonempty (d : list Z) : d <> [] -> (to_hex d =? "")%string = false.
Proof. destruct d; [contradiction | reflexivity]. Qed.

Lemma calculateShareHash_nonempty (share : Share) :
  (KeySharing.calculateShareHash sha256 share =? "")%string = false.
Proof.
  unfold KeySharing.calculateShareHash. apply to_hex_nonempty.
  intros E. pose proof (sha256_length ([u8 (x share)] ++ y share ++
    utf8 (ShareType_string (type share)))) as H. rewrite E in H. discriminate.
Qed.

(** A share that carries the tag of its own contents verifies. *)
Lemma verifyShare_own_tag (share : Share) :
  hash share = KeySharing.calculateShareHash sha256 share ->
  KeySharing.verifyShare sha256 share = Ok true.
Proof.
  intros E. unfold KeySharing.verifyShare.
  rewrite E at 1. rewrite calculateShareHash_nonempty.
  rewrite <- E. unfold timingSafeEqual. rewrite Nat.eqb_refl.
  f_equal. now apply bytes_eqb_eq.
Qed.

Lemma verifyShare_stamped (t : ShareType) (ys : list Z) :
  KeySharing.verifyShare sha256 (stamped sha256 t ys) = Ok true.
Proof. apply verifyShare_own_tag. reflexivity. Qed.

(** ** The precondition checks *)

Lemma filter_r_all_valid (shares : list Share) :
  Forall (fun share => KeySharing.verifyShare sha256 share = Ok true) shares ->
  filter_r (fun share => ok <- KeySharing.verifyShare sha256 share ;; Ok (negb ok))
    shares = Ok [].
Proof.
  induction 1 as [| share shares Hv _ IH]; [reflexivity |].
  cbn [filter_r]. rewrite Hv, IH. reflexivity.
Qed.

Lemma nodup_constant (l : list Z) :
  (forall a b, In a l -> In b l -> a = b) ->
  (length (nodup Z.eq_dec l) <= 1)%nat.
Proof.
  induction l as [| a l IH]; intros H; [cbn; lia |].
  cbn [nodup]. destruct (in_dec Z.eq_dec a l) as [Hin | Hnin].
  - apply IH. intros; apply H; now right.
  - destruct l as [| b l]; [cbn; lia |].
    exfalso. apply Hnin. left. apply H; [right; now left | now left].
Qed.

Lemma versions_agree (shares : list Share) :
  (forall a b, In a shares -> In b shares -> version a = version b) ->
  (1 <? length (nodup Z.eq_dec (map version shares)))%nat = false.
Proof.
  intros H. apply Nat.ltb_ge. apply nodup_constant.
  intros a b Ha Hb. apply in_map_iff in Ha, Hb.
  destruct Ha as (sa & <- & Ha), Hb as (sb & <- & Hb). now apply H.
Qed.

Lemma reconstruct_lagrange (shares : list Share) :
  checks_pass sha256 shares ->
  KeySharing.reconstruct sha256 shares =
  lagrange shares 0 (length (y (at_ shares 0))).
Proof.
  intros (Hlen & Hv & Hver). unfold KeySharing.reconstruct.
  destruct (Nat.ltb_spec (length shares) 2); [lia |].
  rewrite filter_r_all_valid by assumption. cbn [bind].
  change (0 <? length (@nil Share))%nat with false. cbv iota.
  rewrite versions_agree by assumption. reflexivity.
Qed.

(** The loop of [generateCompatibleShare] only touches the payload of the new
    share. *)
Lemma new_share_loop (f : Z -> nat -> result Z) (steps : list nat) :
  forall newShare,
    for_each steps (fun byteIndex newShare =>
      result <- f (x newShare) byteIndex ;;
      Ok (with_y newShare (set_nth byteIndex (u8 result) (y newShare))))
      newShare =
    (bytes <- for_each steps (fun byteIndex bytes =>
                result <- f (x newShare) byteIndex ;;
                Ok (set_nth byteIndex (u8 result) bytes)) (y newShare) ;;
     Ok (with_y newShare bytes)).
Proof.
  induction steps as [| b steps IH]; intros newShare.
  - destruct newShare; reflexivity.
  - cbn [for_each]. destruct (f (x newShare) b) as [v | e]; [| reflexivity].
    cbn [bind]. rewrite IH. reflexivity.
Qed.

Lemma generateCompatibleShare_lagrange (privateKey : list Z)
    (shares : list Share) (t : ShareType) :
  checks_pass sha256 shares ->
  KeySharing.generateCompatibleShare sha256 privateKey shares t =
  (bytes <- lagrange shares (coordinate t) (length privateKey) ;;
   let newShare := mkShare t (coordinate t) bytes (version (at_ shares 0)) EmptyString in
   Ok (with_hash newShare (KeySharing.calculateShareHash sha256 newShare))).
Proof.
  intros (Hlen & Hv & Hver). unfold KeySharing.generateCompatibleShare.
  destruct (Nat.ltb_spec (length shares) 2); [lia |].
  rewrite filter_r_all_valid by assumption. cbn [bind].
  change (0 <? length (@nil Share))%nat with false. cbv iota.
  rewrite versions_agree by assumption.
  unfold for_index_r at 1.
  rewrite (new_share_loop (fun xs byteIndex =>
    for_index_r (length shares) (fun i result =>
      term <- for_index_r (length shares) (fun j term =>
                if (i =? j)%nat then Ok term
                else
                  inv <- GF256.inverse (GF256.subtract (x (at_ shares i)) (x (at_ shares j))) ;;
                  Ok (GF256.multiply term (GF256.multiply (GF256.subtract xs (x (at_ shares j))) inv)))
              (u8 (nth byteIndex (y (at_ shares i)) 0)) ;;
      Ok (GF256.add result term)) (u8 0))).
  unfold lagrange, lagrange_byte, lagrange_term, for_index_r, coordinate.
  cbn [x y].
  match goal with |- bind (bind ?m _) _ = _ => destruct m end; reflexivity.
Qed.

(** ** The interpolation loops *)

Lemma nth_map_seq (f : nat -> Z) (n b : nat) :
  (b < n)%nat -> nth b (map f (seq 0 n)) 0 = f b.
Proof.
  intros Hb. rewrite (nth_indep _ 0 (f O)) by now rewrite length_map, length_seq.
  rewrite map_nth, seq_nth by assumption. reflexivity.
Qed.

Lemma evaluations_length pk rng k : length (evaluations pk rng k) = length pk.
Proof. unfold evaluations. now rewrite length_map, length_seq. Qed.

Lemma evaluations_nth pk rng k b :
  (b < length pk)%nat ->
  nth b (evaluations pk rng k) 0 = poly (u8 (nth b pk 0)) (u8 (rng b)) k.
Proof. intros Hb. unfold evaluations. now rewrite nth_map_seq. Qed.

Lemma map_nth_seq (l : list Z) : map (fun b => nth b l 0) (seq 0 (length l)) = l.
Proof.
  apply nth_ext with (d := 0) (d' := 0).
  - now rewrite length_map, length_seq.
  - intros n Hn. rewrite length_map, length_seq in Hn. now rewrite nth_map_seq.
Qed.

(** At coordinate [0] the polynomials give the secret back. *)
Lemma evaluations_0 pk rng : Forall is_byte pk -> evaluations pk rng 0 = pk.
Proof.
  intros Hpk. rewrite <- (map_nth_seq pk) at 2. unfold evaluations.
  apply map_ext_in. intros b Hb. apply in_seq in Hb.
  unfold poly. rewrite multiply_0_r, Z.lxor_0_r. apply u8_byte.
  rewrite Forall_forall in Hpk. apply Hpk, nth_In. lia.
Qed.

Lemma for_each_app {A St : Type} (l1 l2 : list A) (body : A -> St -> result St) init :
  for_each (l1 ++ l2) body init = (st <- for_each l1 body init ;; for_each l2 body st).
Proof.
  revert init. induction l1 as [| a l1 IH]; intros init; [reflexivity |].
  cbn [app for_each]. destruct (body a init); [apply IH | reflexivity].
Qed.

Lemma map_zero_seq (f : nat -> Z) (n a : nat) :
  (forall b, f b = 0) -> map f (seq a n) = repeat 0 n.
Proof.
  intros Hf. revert a. induction n as [| n IH]; intros a; [reflexivity |].
  cbn [seq map repeat]. now rewrite Hf, IH.
Qed.

(** A loop that stores one computed byte per index fills the array. *)
Lemma fill_loop (f : nat -> result Z) (g : nat -> Z) (n : nat) :
  (forall b, (b < n)%nat -> f b = Ok (g b)) ->
  for_index_r n (fun byteIndex bytes =>
    result <- f byteIndex ;; Ok (set_nth byteIndex (u8 result) bytes))
    (repeat 0 n) = Ok (map (fun b => u8 (g b)) (seq 0 n)).
Proof.
  intros Hf.
  assert (P : forall k, (k <= n)%nat ->
    for_index_r k (fun byteIndex bytes =>
      result <- f byteIndex ;; Ok (set_nth byteIndex (u8 result) bytes))
      (repeat 0 n) =
    Ok (map (fun b => if (b <? k)%nat then u8 (g b) else 0) (seq 0 n))).
  { induction k as [| k IH]; intros Hk.
    - cbn [for_index_r indices seq for_each]. f_equal.
      symmetry. apply map_zero_seq. reflexivity.
    - unfold for_index_r, indices in IH |- *.
      rewrite seq_S, for_each_app, IH by lia. cbn [bind for_each Nat.add].
      rewrite Hf by lia. cbn [bind]. f_equal.
      rewrite set_nth_map_seq. apply map_ext. intros b. cbn [Nat.add].
      destruct (Nat.eqb_spec b k) as [-> | Hne].
      + destruct (Nat.ltb_spec k (S k)); [reflexivity | lia].
      + destruct (Nat.ltb_spec b k), (Nat.ltb_spec b (S k)); try reflexivity; lia. }
  rewrite P by lia. f_equal. apply map_ext_in. intros b Hb. apply in_seq in Hb.
  destruct (Nat.ltb_spec b n); [reflexivity | lia].
Qed.

Lemma subtract_bytes (a b : Z) :
  is_byte a -> is_byte b -> GF256.subtract a b = Z.lxor a b.
Proof. intros Ha Hb. apply u8_byte. now apply lxor_is_byte. Qed.

(** One byte position interpolated from two shares on the same line. *)
Lemma lagrange_byte_two (sa sb : Share) (t s r : Z) (b : nat) :
  is_byte (x sa) -> is_byte (x sb) -> is_byte t -> is_byte s -> is_byte r ->
  x sa <> x sb ->
  nth b (y sa) 0 = poly s r (x sa) ->
  nth b (y sb) 0 = poly s r (x sb) ->
  lagrange_byte [sa; sb] t b = Ok (poly s r t).
Proof.
  intros Hxa Hxb Ht Hs Hr Hne Ya Yb.
  assert (Hd : Z.lxor (x sa) (x sb) <> 0) by now rewrite Z.lxor_eq_0_iff.
  destruct (inverse_nonzero (Z.lxor (x sa) (x sb))) as (e & Ei & He & Hm);
    [now apply lxor_is_byte | assumption |].
  unfold lagrange_byte, lagrange_term, for_index_r, indices.
  cbn [length seq for_each Nat.eqb at_ nth].
  rewrite Ya, Yb, !subtract_bytes by assumption.
  rewrite (Z.lxor_comm (x sb) (x sa)), Ei. cbn [bind].
  rewrite !(u8_byte (poly _ _ _)) by (apply poly_is_byte; assumption).
  unfold GF256.add. change (u8 0) with 0. rewrite Z.lxor_0_l.
  rewrite (u8_byte (GF256.multiply _ _)) by apply multiply_is_byte.
  rewrite (line_interpolation s r (x sa) (x sb) t e) by assumption.
  f_equal. apply u8_byte. now apply poly_is_byte.
Qed.

Lemma lagrange_two (sa sb : Share) (pk : list Z) (rng : Rng) (t : Z) :
  is_byte (x sa) -> is_byte (x sb) -> is_byte t -> x sa <> x sb ->
  y sa = evaluations pk rng (x sa) ->
  y sb = evaluations pk rng (x sb) ->
  lagrange [sa; sb] t (length pk) = Ok (evaluations pk rng t).
Proof.
  intros Hxa Hxb Ht Hne Ya Yb. unfold lagrange.
  rewrite (fill_loop _ (fun b => poly (u8 (nth b pk 0)) (u8 (rng b)) t)).
  - f_equal. unfold evaluations. apply map_ext. intros b.
    apply u8_byte, poly_is_byte, u8_is_byte.
  - intros b Hb. apply lagrange_byte_two; auto using u8_is_byte.
    + rewrite Ya. now apply evaluations_nth.
    + rewrite Yb. now apply evaluations_nth.
Qed.

(** One byte position interpolated at [0] from the three shares of [split]:
    every Lagrange weight is [1], and the three slopes cancel. *)
Lemma lagrange_byte_three (sa sb sc : Share) (s r : Z) (b : nat) :
  x sa = 1 -> x sb = 2 -> x sc = 3 -> is_byte s -> is_byte r ->
  nth b (y sa) 0 = poly s r 1 ->
  nth b (y sb) 0 = poly s r 2 ->
  nth b (y sc) 0 = poly s r 3 ->
  lagrange_byte [sa; sb; sc] 0 b = Ok s.
Proof.
  intros Xa Xb Xc Hs Hr Ya Yb Yc.
  unfold lagrange_byte, lagrange_term, for_index_r, indices.
  cbn [length seq for_each Nat.eqb at_ nth].
  rewrite Xa, Xb, Xc, Ya, Yb, Yc.
  repeat match goal with
         | |- context [GF256.inverse (GF256.subtract ?a ?c)] =>
             let v := eval vm_compute in (GF256.inverse (GF256.subtract a c)) in
             change (GF256.inverse (GF256.subtract a c)) with v; cbn [bind]
         end.
  rewrite !(u8_byte (poly _ _ _)) by (apply poly_is_byte; assumption).
  rewrite !multiply_assoc
    by (try apply poly_is_byte; try apply multiply_is_byte; try apply u8_is_byte;
        unfold is_byte; try assumption; lia).
  repeat match goal with
         | |- context [GF256.multiply (GF256.multiply (GF256.subtract 0 ?a) ?c)
                                      (GF256.multiply (GF256.subtract 0 ?a') ?c')] =>
             change (GF256.multiply (GF256.multiply (GF256.subtract 0 a) c)
                                    (GF256.multiply (GF256.subtract 0 a') c')) with 1
         end.
  rewrite !multiply_1_r by (apply poly_is_byte; assumption).
  unfold GF256.add. change (u8 0) with 0. rewrite Z.lxor_0_l.
  rewrite !(u8_byte (poly _ _ _)) by (apply poly_is_byte; assumption).
  rewrite (u8_byte (Z.lxor (poly s r 1) (poly s r 2)))
    by (apply lxor_is_byte; apply poly_is_byte; assumption).
  assert (E : Z.lxor (Z.lxor (poly s r 1) (poly s r 2)) (poly s r 3) = s).
  { unfold poly.
    replace (Z.lxor (Z.lxor (Z.lxor s (GF256.multiply r 1)) (Z.lxor s (GF256.multiply r 2)))
                    (Z.lxor s (GF256.multiply r 3)))
      with (Z.lxor s (Z.lxor (Z.lxor (GF256.multiply r 1) (GF256.multiply r 2))
                             (GF256.multiply r 3))) by xor_bits.
    rewrite <- !multiply_xor_r by (unfold is_byte; try assumption; cbn; lia).
    change (Z.lxor (Z.lxor 1 2) 3) with 0.
    now rewrite multiply_0_r, Z.lxor_0_r. }
  rewrite E. f_equal. now apply u8_byte.
Qed.

Lemma lagrange_three (sa sb sc : Share) (pk : list Z) (rng : Rng) :
  x sa = 1 -> x sb = 2 -> x sc = 3 ->
  y sa = evaluations pk rng 1 ->
  y sb = evaluations pk rng 2 ->
  y sc = evaluations pk rng 3 ->
  lagrange [sa; sb; sc] 0 (length pk) = Ok (evaluations pk rng 0).
Proof.
  intros Xa Xb Xc Ya Yb Yc. unfold lagrange.
  rewrite (fill_loop _ (fun b => u8 (nth b pk 0))).
  - f_equal. unfold evaluations, poly. apply map_ext. intros b.
    now rewrite multiply_0_r, Z.lxor_0_r, u8_idem.
  - intros b Hb. apply lagrange_byte_three with (r := u8 (rng b));
      auto using u8_is_byte.
    + rewrite Ya. now apply evaluations_nth.
    + rewrite Yb. now apply evaluations_nth.
    + rewrite Yc. now apply evaluations_nth.
Qed.

(** ** Shares produced by [split] *)

Lemma coordinate_is_byte (t : ShareType) : is_byte (coordinate t).
Proof. destruct t; unfold is_byte; cbn; lia. Qed.

Lemma coordinate_inj (t t' : ShareType) : coordinate t = coordinate t' -> t = t'.
Proof. destruct t, t'; cbn; intros E; try reflexivity; discriminate. Qed.

Lemma in_split (pk : list Z) (rng : Rng) (share : Share) :
  In share (fst (KeySharing.split sha256 pk rng)) -> share_of sha256 pk rng share.
Proof.
  destruct pk as [| p pk]; [intros [] |].
  rewrite split_eq by discriminate.
  intros [<- | [<- | [<- | []]]];
    [exists deviceShare | exists serverShare | exists recoveryShare]; reflexivity.
Qed.

Lemma checks_pass_pair (pk : list Z) (rng : Rng) (a b : Share) :
  share_of sha256 pk rng a -> share_of sha256 pk rng b -> checks_pass sha256 [a; b].
Proof.
  intros [ta ->] [tb ->]. repeat split.
  - cbn. lia.
  - repeat constructor; apply verifyShare_stamped.
  - intros u v [<- | [<- | []]] [<- | [<- | []]]; reflexivity.
Qed.

Lemma reconstruct_pair (pk : list Z) (rng : Rng) (a b : Share) :
  share_of sha256 pk rng a -> share_of sha256 pk rng b -> x a <> x b ->
  KeySharing.reconstruct sha256 [a; b] = Ok (evaluations pk rng 0).
Proof.
  intros Ha Hb Hne.
  rewrite reconstruct_lagrange by (eapply checks_pass_pair; eassumption).
  destruct Ha as [ta ->], Hb as [tb ->].
  cbn [at_ nth stamped with_hash y x] in Hne |- *.
  rewrite evaluations_length.
  apply lagrange_two;
    first [apply coordinate_is_byte | reflexivity | exact Hne | unfold is_byte; lia].
Qed.

Lemma generate_pair (pk : list Z) (rng : Rng) (a b : Share)
    (privateKey : list Z) (t : ShareType) :
  share_of sha256 pk rng a -> share_of sha256 pk rng b -> x a <> x b ->
  length privateKey = length pk ->
  KeySharing.generateCompatibleShare sha256 privateKey [a; b] t =
  Ok (stamped sha256 t (evaluations pk rng (coordinate t))).
Proof.
  intros Ha Hb Hne Hlen.
  rewrite generateCompatibleShare_lagrange by (eapply checks_pass_pair; eassumption).
  destruct Ha as [ta ->], Hb as [tb ->].
  cbn [stamped with_hash y x] in Hne. rewrite Hlen.
  rewrite (lagrange_two _ _ pk rng);
    first [apply coordinate_is_byte | reflexivity | exact Hne].
Qed.

Lemma reconstruct_triple (pk : list Z) (rng : Rng) :
  pk <> [] ->
  KeySharing.reconstruct sha256 (fst (KeySharing.split sha256 pk rng)) =
  Ok (evaluations pk rng 0).
Proof.
  intros Hne. rewrite split_eq by assumption.
  rewrite reconstruct_lagrange.
  - cbn [at_ nth stamped with_hash y]. rewrite evaluations_length.
    apply lagrange_three; reflexivity.
  - repeat split.
    + cbn. lia.
    + repeat constructor; apply verifyShare_stamped.
    + intros u v [<- | [<- | [<- | []]]] [<- | [<- | [<- | []]]]; reflexivity.
Qed.

(** ** The claims about the engine *)

(** C2, for the secrets the engine shares: for every non-empty secret, [split]
    returns exactly three shares in the order device, server, recovery, with
    coordinates 1, 2, 3, each with version 1 and a payload as long as the
    secret. *)
Theorem split_shape (pk : list Z) (rng : Rng) :
  pk <> [] ->
  exists y1 y2 y3 h1 h2 h3,
    fst (KeySharing.split sha256 pk rng) =
      [mkShare deviceShare 1 y1 1 h1;
       mkShare serverShare 2 y2 1 h2;
       mkShare recoveryShare 3 y3 1 h3] /\
    length y1 = length pk /\ length y2 = length pk /\ length y3 = length pk.
Proof.
  intros Hne. rewrite split_eq by assumption.
  do 6 eexists. split; [reflexivity |].
  cbn [y]. now rewrite !evaluations_length.
Qed.

(** C1, for the secrets the engine shares: for every non-empty secret of
    bytes, each of the three pairings of the shares of [split], in either
    order, reconstructs the secret exactly, and so do all three shares. *)
Theorem split_reconstruct_roundtrip (pk : list Z) (rng : Rng) :
  pk <> [] -> Forall is_byte pk ->
  exists s1 s2 s3,
    fst (KeySharing.split sha256 pk rng) = [s1; s2; s3] /\
    KeySharing.reconstruct sha256 [s1; s2] = Ok pk /\
    KeySharing.reconstruct sha256 [s1; s3] = Ok pk /\
    KeySharing.reconstruct sha256 [s2; s3] = Ok pk /\
    KeySharing.reconstruct sha256 [s2; s1] = Ok pk /\
    KeySharing.reconstruct sha256 [s3; s1] = Ok pk /\
    KeySharing.reconstruct sha256 [s3; s2] = Ok pk /\
    KeySharing.reconstruct sha256 [s1; s2; s3] = Ok pk.
Proof.
  intros Hne Hpk.
  pose proof (reconstruct_triple pk rng Hne) as H3.
  rewrite split_eq in H3 by assumption.
  rewrite split_eq by assumption. do 3 eexists. split; [reflexivity |].
  rewrite evaluations_0 in H3 by assumption.
  assert (S1 : share_of sha256 pk rng (stamped sha256 deviceShare (evaluations pk rng 1)))
    by (exists deviceShare; reflexivity).
  assert (S2 : share_of sha256 pk rng (stamped sha256 serverShare (evaluations pk rng 2)))
    by (exists serverShare; reflexivity).
  assert (S3 : share_of sha256 pk rng (stamped sha256 recoveryShare (evaluations pk rng 3)))
    by (exists recoveryShare; reflexivity).
  repeat split; try exact H3;
    rewrite (reconstruct_pair pk rng) by (assumption || (cbn; discriminate));
    now rewrite evaluations_0.
Qed.

Lemma evaluations_0_u8 (pk : list Z) (rng : Rng) :
  evaluations pk rng 0 = map u8 pk.
Proof.
  rewrite <- (map_nth_seq pk) at 2. rewrite map_map. unfold evaluations, poly.
  apply map_ext. intros b. now rewrite multiply_0_r, Z.lxor_0_r.
Qed.

(** C3: from any two shares of [split] with distinct coordinates and the
    identity of the third as target, [generateCompatibleShare] returns a share
    with the payload of the third share, and reconstruction from the derived
    share and either input gives what reconstruction from the two inputs
    gives, namely the secret. *)
Theorem generateCompatibleShare_third (pk privateKey : list Z) (rng : Rng)
    (a b c : Share) :
  In a (fst (KeySharing.split sha256 pk rng)) ->
  In b (fst (KeySharing.split sha256 pk rng)) ->
  In c (fst (KeySharing.split sha256 pk rng)) ->
  x a <> x b -> type c <> type a -> type c <> type b ->
  length privateKey = length pk ->
  exists d,
    KeySharing.generateCompatibleShare sha256 privateKey [a; b] (type c) = Ok d /\
    y d = y c /\
    KeySharing.reconstruct sha256 [a; b] = Ok (map u8 pk) /\
    KeySharing.reconstruct sha256 [d; a] = KeySharing.reconstruct sha256 [a; b] /\
    KeySharing.reconstruct sha256 [d; b] = KeySharing.reconstruct sha256 [a; b] /\
    KeySharing.reconstruct sha256 [a; d] = KeySharing.reconstruct sha256 [a; b] /\
    KeySharing.reconstruct sha256 [b; d] = KeySharing.reconstruct sha256 [a; b].
Proof.
  intros Ia Ib Ic Hab Hca Hcb Hlen.
  apply in_split in Ia, Ib, Ic.
  exists c.
  assert (Xca : x c <> x a).
  { destruct Ia as [ta ->], Ic as [tc ->]. cbn in Hca |- *.
    intros E. apply Hca. now apply coordinate_inj. }
  assert (Xcb : x c <> x b).
  { destruct Ib as [tb ->], Ic as [tc ->]. cbn in Hcb |- *.
    intros E. apply Hcb. now apply coordinate_inj. }
  rewrite !(reconstruct_pair pk rng) by (assumption || congruence).
  rewrite (generate_pair pk rng) by assumption.
  rewrite evaluations_0_u8.
  destruct Ic as [tc ->]. repeat split; reflexivity.
Qed.

(** C5: two shares that verify and agree on their version but carry the same
    coordinate, the first with a non-empty payload, make [reconstruct] fail
    with the division-by-zero error; no byte sequence is returned. *)
Theorem reconstruct_duplicate_coordinate (a b : Share) :
  KeySharing.verifyShare sha256 a = Ok true ->
  KeySharing.verifyShare sha256 b = Ok true ->
  version a = version b ->
  x a = x b ->
  y a <> [] ->
  KeySharing.reconstruct sha256 [a; b] = Throw (Error "Division by zero").
Proof.
  intros Va Vb Hver Hx Hy. rewrite reconstruct_lagrange.
  - cbn [at_ nth]. destruct (y a) as [| y0 ys] eqn:Ey; [contradiction |].
    unfold lagrange, lagrange_byte, lagrange_term, for_index_r, indices.
    cbn [length seq for_each Nat.eqb at_ nth].
    assert (E : GF256.inverse (GF256.subtract (x a) (x b)) =
                Throw (Error "Division by zero")).
    { rewrite Hx. unfold GF256.subtract, GF256.add.
      rewrite Z.lxor_nilpotent. reflexivity. }
    rewrite E. reflexivity.
  - repeat split.
    + cbn. lia.
    + repeat constructor; assumption.
    + intros u v [<- | [<- | []]] [<- | [<- | []]]; congruence.
Qed.

(** ** The role of the [privateKey] argument *)

Lemma for_each_ext {A St : Type} (l : list A) (f g : A -> St -> result St) :
  (forall a st, f a st = g a st) ->
  forall init, for_each l f init = for_each l g init.
Proof.
  intros H. induction l as [| a l IH]; intros init; [reflexivity |].
  cbn [for_each]. rewrite H. destruct (g a init); [apply IH | reflexivity].
Qed.

Lemma x_at (shares : list Share) (j : nat) :
  x (at_ shares j) = nth j (map x shares) 0.
Proof. unfold at_. now rewrite <- (map_nth x). Qed.

Lemma y_at (shares : list Share) (j : nat) :
  y (at_ shares j) = nth j (map y shares) [].
Proof. unfold at_. now rewrite <- (map_nth y). Qed.

(** The interpolation reads the coordinates and payloads of the shares and
    nothing else. *)
Lemma lagrange_points (shares shares' : list Share) (target : Z) (len : nat) :
  map x shares = map x shares' -> map y shares = map y shares' ->
  lagrange shares target len = lagrange shares' target len.
Proof.
  intros Ex Ey.
  assert (El : length shares = length shares')
    by now rewrite <- (length_map x shares), Ex, length_map.
  unfold lagrange, lagrange_byte, lagrange_term, for_index_r.
  apply for_each_ext. intros byteIndex bytes. rewrite El.
  f_equal. apply for_each_ext. intros i result.
  rewrite !y_at, Ey. f_equal. apply for_each_ext. intros j term.
  now rewrite !x_at, Ex.
Qed.

(** What a successful derivation returns. *)
Lemma generateCompatibleShare_payload (privateKey : list Z)
    (shares : list Share) (t : ShareType) (d : Share) :
  KeySharing.generateCompatibleShare sha256 privateKey shares t = Ok d ->
  lagrange shares (coordinate t) (length privateKey) = Ok (y d).
Proof.
  unfold KeySharing.generateCompatibleShare.
  destruct (length shares <? 2)%nat; [discriminate |].
  destruct (filter_r _ shares) as [invalid |]; [| discriminate].
  cbn [bind]. destruct (0 <? length invalid)%nat; [discriminate |].
  destruct (1 <? length (nodup Z.eq_dec (map version shares)))%nat; [discriminate |].
  unfold for_index_r at 1.
  rewrite (new_share_loop (fun xs byteIndex =>
    for_index_r (length shares) (fun i result =>
      term <- for_index_r (length shares) (fun j term =>
                if (i =? j)%nat then Ok term
                else
                  inv <- GF256.inverse (GF256.subtract (x (at_ shares i)) (x (at_ shares j))) ;;
                  Ok (GF256.multiply term (GF256.multiply (GF256.subtract xs (x (at_ shares j))) inv)))
              (u8 (nth byteIndex (y (at_ shares i)) 0)) ;;
      Ok (GF256.add result term)) (u8 0))).
  unfold lagrange, lagrange_byte, lagrange_term, for_index_r, coordinate.
  cbn [x y].
  match goal with |- bind (bind ?m _) _ = _ -> _ => destruct m end;
    [| discriminate].
  cbn [bind with_y with_hash]. intros [= <-]. reflexivity.
Qed.

(** C10: the [privateKey] argument of [generateCompatibleShare] contributes
    its length only, and the derived payload is determined by the coordinates
    and payloads of the existing shares and the target. *)
Theorem generateCompatibleShare_privateKey_length (privateKey privateKey' : list Z)
    (shares shares' : list Share) (t : ShareType) :
  length privateKey = length privateKey' ->
  KeySharing.generateCompatibleShare sha256 privateKey shares t =
  KeySharing.generateCompatibleShare sha256 privateKey' shares t /\
  (map x shares = map x shares' -> map y shares = map y shares' ->
   forall d d',
     KeySharing.generateCompatibleShare sha256 privateKey shares t = Ok d ->
     KeySharing.generateCompatibleShare sha256 privateKey' shares' t = Ok d' ->
     y d = y d').
Proof.
  intros Hlen. split.
  - unfold KeySharing.generateCompatibleShare. rewrite Hlen. reflexivity.
  - intros Ex Ey d d' Hd Hd'.
    apply generateCompatibleShare_payload in Hd, Hd'.
    rewrite Hlen, (lagrange_points shares shares') in Hd by assumption.
    congruence.
Qed.

(** ** What the checks of [reconstruct] answer *)

Hypothesis sha256_bytes : forall m, Forall is_byte (sha256 m).

Lemma unhex_hex_digit (n : Z) : 0 <= n < 16 -> unhex (hex_digit n) = Some n.
Proof.
  intros Hn.
  assert (C : forallb (fun k => match unhex (hex_digit k) with
                                | Some v => v =? k
                                | None => false
                                end) (map Z.of_nat (seq 0 16)) = true)
    by reflexivity.
  rewrite forallb_forall in C. specialize (C n).
  destruct (unhex (hex_digit n)) as [v |].
  - f_equal. apply Z.eqb_eq, C.
    rewrite <- (Z2Nat.id n) by lia. apply in_map, in_seq. lia.
  - discriminate C.
    rewrite <- (Z2Nat.id n) by lia. apply in_map, in_seq. lia.
Qed.

(** Decoding the hexadecimal form of a byte sequence gives it back. *)
Lemma Buffer_from_hex_to_hex (d : list Z) :
  Forall is_byte d -> Buffer_from_hex (to_hex d) = d.
Proof.
  induction 1 as [| b d Hb _ IH]; [reflexivity |].
  unfold is_byte in Hb. cbn [to_hex Buffer_from_hex].
  rewrite !unhex_hex_digit, IH.
  - f_equal. symmetry. apply Z.div_mod. lia.
  - apply Z.mod_pos_bound. lia.
  - split; [apply Z.div_pos; lia | apply Z.div_lt_upper_bound; lia].
Qed.

Lemma calculated_tag_bytes (share : Share) :
  Buffer_from_hex (KeySharing.calculateShareHash sha256 share) =
  sha256 ([u8 (x share)] ++ y share ++ utf8 (ShareType_string (type share))).
Proof. apply Buffer_from_hex_to_hex, sha256_bytes. Qed.

(** The three answers of [verifyShare]: [false] without a tag, the comparison
    of the digests when the stored tag decodes to 32 bytes, and the
    [RangeError] of [timingSafeEqual] when it decodes to any other length. *)
Lemma verifyShare_cases (share : Share) :
  let digest :=
    sha256 ([u8 (x share)] ++ y share ++ utf8 (ShareType_string (type share))) in
  let stored := Buffer_from_hex (hash share) in
  (hash share = EmptyString -> KeySharing.verifyShare sha256 share = Ok false) /\
  (hash share <> EmptyString -> length stored = 32%nat ->
   KeySharing.verifyShare sha256 share = Ok (bytes_eqb digest stored)) /\
  (hash share <> EmptyString -> length stored <> 32%nat ->
   KeySharing.verifyShare sha256 share =
   Throw (RangeError "Input buffers must have the same byte length")).
Proof.
  cbv zeta. unfold KeySharing.verifyShare. rewrite calculated_tag_bytes.
  unfold timingSafeEqual. rewrite sha256_length. repeat split.
  - intros ->. reflexivity.
  - intros Hne Hlen. destruct (String.eqb_spec (hash share) ""); [contradiction |].
    now rewrite Hlen.
  - intros Hne Hlen. destruct (String.eqb_spec (hash share) ""); [contradiction |].
    destruct (Nat.eqb_spec 32 (length (Buffer_from_hex (hash share))));
      [congruence | reflexivity].
Qed.

Lemma filter_r_some_invalid (shares : list Share) :
  Forall (fun share => exists ok, KeySharing.verifyShare sha256 share = Ok ok) shares ->
  exists invalid,
    filter_r (fun share => ok <- KeySharing.verifyShare sha256 share ;; Ok (negb ok))
      shares = Ok invalid /\
    (Exists (fun share => KeySharing.verifyShare sha256 share = Ok false) shares ->
     invalid <> []).
Proof.
  induction 1 as [| share shares [ok Hv] _ (invalid & E & IH)].
  - exists []. split; [reflexivity |]. intros H. inversion H.
  - cbn [filter_r]. rewrite Hv, E. cbn [bind]. destruct ok; cbn [negb].
    + exists invalid. split; [reflexivity |].
      intros H. inversion H as [? ? H1 | ? ? H1]; subst; [congruence | auto].
    + exists (share :: invalid). split; [reflexivity | discriminate].
Qed.

Lemma nodup_two (l : list Z) (a b : Z) :
  In a l -> In b l -> a <> b -> (2 <= length (nodup Z.eq_dec l))%nat.
Proof.
  intros Ha Hb Hne.
  apply (nodup_In Z.eq_dec) in Ha, Hb.
  destruct (nodup Z.eq_dec l) as [| p [| q rest]]; cbn [length]; try lia.
  - destruct Ha.
  - destruct Ha as [<- | []], Hb as [<- | []]. congruence.
Qed.

(** The part of C4 that the code establishes.  [reconstruct] answers the
    insufficient-shares error below two shares; the tampered-share error when
    every call of [verifyShare] returns and one of them returns [false]; the
    incompatible-version error when all shares verify and two versions differ;
    and otherwise the outcome of the interpolation at [0]. *)
Lemma reconstruct_preconditions (shares : list Share) :
  ((length shares < 2)%nat ->
   KeySharing.reconstruct sha256 shares =
   Throw (Error "Need at least 2 shares to reconstruct")) /\
  ((2 <= length shares)%nat ->
   Forall (fun share => exists ok, KeySharing.verifyShare sha256 share = Ok ok) shares ->
   Exists (fun share => KeySharing.verifyShare sha256 share = Ok false) shares ->
   KeySharing.reconstruct sha256 shares =
   Throw (Error "Invalid or tampered shares detected")) /\
  ((2 <= length shares)%nat ->
   Forall (fun share => KeySharing.verifyShare sha256 share = Ok true) shares ->
   (exists a b, In a shares /\ In b shares /\ version a <> version b) ->
   KeySharing.reconstruct sha256 shares =
   Throw (Error "Incompatible share versions")) /\
  (checks_pass sha256 shares ->
   KeySharing.reconstruct sha256 shares =
   lagrange shares 0 (length (y (at_ shares 0)))).
Proof.
  repeat split.
  - intros Hlen. unfold KeySharing.reconstruct.
    destruct (Nat.ltb_spec (length shares) 2); [reflexivity | lia].
  - intros Hlen Hall Hex. unfold KeySharing.reconstruct.
    destruct (Nat.ltb_spec (length shares) 2); [lia |].
    destruct (filter_r_some_invalid shares Hall) as (invalid & E & Hinv).
    rewrite E. cbn [bind]. destruct invalid; [now destruct Hinv | reflexivity].
  - intros Hlen Hall (a & b & Ha & Hb & Hne). unfold KeySharing.reconstruct.
    destruct (Nat.ltb_spec (length shares) 2); [lia |].
    rewrite filter_r_all_valid by assumption. cbn [bind].
    change (0 <? length (@nil Share))%nat with false. cbv iota.
    destruct (Nat.ltb_spec 1 (length (nodup Z.eq_dec (map version shares))));
      [reflexivity |].
    pose proof (nodup_two (map version shares) (version a) (version b)
                  (in_map version _ _ Ha) (in_map version _ _ Hb) Hne). lia.
  - apply reconstruct_lagrange.
Qed.

(** ** Stored tags of the wrong length *)

Lemma to_hex_length (d : list Z) : String.length (to_hex d) = (2 * length d)%nat.
Proof.
  induction d as [| b d IH]; [reflexivity |].
  cbn [to_hex String.length length]. rewrite IH. lia.
Qed.

(** C7 at a stored tag that does not decode to 32 bytes, here the one-byte tag
    [ab]: [verifyShare] does not answer [false] but lets the [RangeError] of
    [timingSafeEqual] escape, where the length-checked comparison of the
    CryptoJS variant of the same method answers [false]. *)
Theorem verifyShare_malformed_tag (share : Share) :
  hash share = "ab"%string ->
  KeySharing.verifyShare sha256 share =
    Throw (RangeError "Input buffers must have the same byte length") /\
  KeySharing.verifyShare_cryptojs sha256 share = Ok false.
Proof.
  intros Hh. split.
  - apply verifyShare_cases; rewrite Hh; cbn; discriminate.
  - unfold KeySharing.verifyShare_cryptojs. rewrite Hh.
    change ("ab" =? "")%string with false. cbv iota.
    unfold KeySharing.calculateShareHash.
    rewrite to_hex_length, sha256_length. reflexivity.
Qed.

(** C4 at the same tag: a share whose stored tag does not match makes
    [reconstruct] fail with the [RangeError] of the comparison, not with the
    tampered-share error. *)
Theorem reconstruct_malformed_tag (a b : Share) :
  hash a = "ab"%string ->
  KeySharing.reconstruct sha256 [a; b] =
    Throw (RangeError "Input buffers must have the same byte length") /\
  KeySharing.reconstruct sha256 [a; b] <>
    Throw (Error "Invalid or tampered shares detected").
Proof.
  intros Hh.
  assert (E : KeySharing.reconstruct sha256 [a; b] =
              Throw (RangeError "Input buffers must have the same byte length")).
  { unfold KeySharing.reconstruct. cbn [length Nat.ltb Nat.leb filter_r].
    assert (V : KeySharing.verifyShare sha256 a =
                Throw (RangeError "Input buffers must have the same byte length"))
      by (apply verifyShare_cases; rewrite Hh; cbn; discriminate).
    rewrite V. reflexivity. }
  split; [exact E | rewrite E; discriminate].
Qed.

(** ** The entry point [KeyManager.generateNewShareFromTwo] *)

Lemma evaluations_bytes (pk : list Z) (rng : Rng) (k : Z) :
  Forall is_byte (evaluations pk rng k).
Proof.
  apply Forall_forall. intros v Hv. unfold evaluations in Hv.
  apply in_map_iff in Hv. destruct Hv as (b & <- & _).
  apply poly_is_byte, u8_is_byte.
Qed.

Lemma process_hex_share (share : Share) :
  Forall is_byte (y share) -> KeyManager.process (hex_share share) = share.
Proof.
  intros Hy. destruct share as [t k ys v h]. unfold KeyManager.process, hex_share.
  cbn in Hy |- *. now rewrite Buffer_from_hex_to_hex.
Qed.

(** Handed the boundary forms of two shares of [split] with distinct
    coordinates, the entry point finds the missing identity, passes the first
    payload as the [privateKey] argument, and returns the boundary form of the
    third share. *)
Lemma generateNewShareFromTwo_third (pk : list Z) (rng : Rng) (a b c : Share) :
  In a (fst (KeySharing.split sha256 pk rng)) ->
  In b (fst (KeySharing.split sha256 pk rng)) ->
  In c (fst (KeySharing.split sha256 pk rng)) ->
  x a <> x b -> type c <> type a -> type c <> type b ->
  KeyManager.generateNewShareFromTwo sha256 (hex_share a) (hex_share b) =
  Ok (hex_share c).
Proof.
  intros Ia Ib Ic Hab Hca Hcb.
  apply in_split in Ia, Ib, Ic.
  unfold KeyManager.generateNewShareFromTwo.
  assert (Ya : Forall is_byte (y a))
    by (destruct Ia as [ta ->]; apply evaluations_bytes).
  assert (Yb : Forall is_byte (y b))
    by (destruct Ib as [tb ->]; apply evaluations_bytes).
  rewrite !process_hex_share by assumption. cbv zeta.
  assert (La : length (y a) = length pk)
    by (destruct Ia as [ta ->]; apply evaluations_length).
  assert (F : find (fun t => negb (existsb (ShareType_eqb t) [type a; type b]))
                KeyManager.allTypes = Some (type c)).
  { destruct Ia as [ta ->], Ib as [tb ->], Ic as [tc ->].
    cbn [stamped with_hash type x] in Hab, Hca, Hcb |- *.
    destruct ta, tb, tc; try reflexivity; exfalso;
      first [now apply Hab | now apply Hca | now apply Hcb]. }
  rewrite F, (generate_pair pk rng) by assumption.
  destruct Ic as [tc ->]. reflexivity.
Qed.

End EngineFacts.


(** * The field operations as specified *)

Lemma number_mul_exact (a b : Z) :
  Z.abs (a * b) < 2 ^ 53 -> number_mul a b = Some (a * b).
Proof.
  intros H. unfold number_mul, to_double.
  destruct (Z.ltb_spec (Z.abs (a * b)) (2 ^ 53)); [reflexivity | lia].
Qed.

Lemma exp_entry_byte (k : Z) : -255 < k < 255 -> is_byte (get GF256.EXP_TABLE k).
Proof.
  intros Hk. destruct (Z_lt_le_dec k 0) as [Hneg | Hpos].
  - unfold get. destruct (Z.ltb_spec k 0); [unfold is_byte; lia | lia].
  - destruct (exp_log k) as [Hr _]; [lia | unfold is_byte; lia].
Qed.

(** On a non-zero base and a non-zero exponent [pow] reads the table at the
    remainder of the rounded product. *)
Lemma pow_table (base e : Z) :
  base <> 0 -> e <> 0 ->
  GF256.pow base e =
  match number_mul (get GF256.LOG_TABLE base) e with
  | Some product => get GF256.EXP_TABLE (Z.rem product 255)
  | None => 0
  end.
Proof.
  intros Hnz Hne. unfold GF256.pow.
  destruct (Z.eqb_spec base 0); [contradiction |].
  destruct (Z.eqb_spec e 0); [contradiction |].
  destruct (number_mul (get GF256.LOG_TABLE base) e) as [product |];
    [| reflexivity].
  apply u8_byte, exp_entry_byte.
  pose proof (Z.rem_bound_abs product 255). lia.
Qed.

(** C6, as the code has it, for every byte base and every integer exponent
    that is a JavaScript number: [pow] answers zero for base zero whatever
    the exponent (the base is tested first) and one for a non-zero base and
    exponent zero.  For a non-zero base and a positive exponent whose product
    with [log[base]] stays below [2^53] it answers the antilogarithm of that
    product modulo 255; for a negative exponent (product above [-2^53]) the
    remainder keeps the sign, so it answers one when 255 divides the product
    and zero otherwise; in general it reads the table at the remainder of the
    product as the double arithmetic rounds it. *)
Theorem pow_cases (base e : Z) :
  is_byte base -> is_number e ->
  (base = 0 -> GF256.pow base e = 0) /\
  (base <> 0 -> e = 0 -> GF256.pow base e = 1) /\
  (base <> 0 -> 0 < e -> get GF256.LOG_TABLE base * e < 2 ^ 53 ->
   GF256.pow base e =
   get GF256.EXP_TABLE ((get GF256.LOG_TABLE base * e) mod 255)) /\
  (base <> 0 -> e < 0 -> - 2 ^ 53 < get GF256.LOG_TABLE base * e ->
   GF256.pow base e =
   if (get GF256.LOG_TABLE base * e) mod 255 =? 0 then 1 else 0) /\
  (base <> 0 -> e <> 0 ->
   GF256.pow base e =
   match number_mul (get GF256.LOG_TABLE base) e with
   | Some product => get GF256.EXP_TABLE (Z.rem product 255)
   | None => 0
   end).
Proof.
  intros Hb He.
  split; [intros ->; reflexivity |].
  split.
  { intros Hnz ->. unfold GF256.pow.
    destruct (Z.eqb_spec base 0); [contradiction | reflexivity]. }
  split.
  { intros Hnz Hpos Hex. destruct (log_exp base Hb Hnz) as [Hl _].
    rewrite pow_table, number_mul_exact by (try assumption; nia).
    now rewrite Z.rem_mod_nonneg by nia. }
  split.
  { intros Hnz Hneg Hex. destruct (log_exp base Hb Hnz) as [Hl _].
    rewrite pow_table, number_mul_exact by (try assumption; nia).
    set (p := get GF256.LOG_TABLE base * e) in *.
    assert (Hp : p <= 0) by (unfold p; nia).
    destruct (Z.eqb_spec (p mod 255) 0) as [H0 | H0].
    - apply Z.rem_mod_eq_0 in H0; [| lia]. rewrite H0. reflexivity.
    - assert (Hr : Z.rem p 255 <> 0) by (rewrite Z.rem_mod_eq_0; lia).
      pose proof (Z.rem_nonpos p 255 ltac:(lia) Hp) as Hle.
      unfold get. destruct (Z.ltb_spec (Z.rem p 255) 0); [reflexivity | lia]. }
  intros Hnz Hne. now apply pow_table.
Qed.

Lemma pow_cases_witness :
  is_byte 2 /\ is_number 8 /\
  GF256.pow 2 8 = get GF256.EXP_TABLE ((get GF256.LOG_TABLE 2 * 8) mod 255).
Proof.
  split; [unfold is_byte; lia |]. split; [reflexivity |].
  apply (pow_cases 2 8);
    first [unfold is_byte; lia | discriminate | reflexivity].
Defined.

(** C6 as stated fails in three places.  At base zero and exponent zero the
    code answers zero, not one.  At a negative exponent the remainder is
    negative and the table has no such entry: [pow(2, -1)] is zero, not
    [exp[254]].  At an exponent whose product with the logarithm is not a
    double the remainder is taken of the rounded product: [pow(3, 2^53 - 1)]
    is [8], not [exp[(25 * (2^53 - 1)) mod 255] = 116]. *)
Lemma pow_formula_fails :
  (GF256.pow 0 0 = 0 /\ GF256.pow 0 0 <> 1) /\
  (GF256.pow 2 (-1) = 0 /\
   get GF256.EXP_TABLE ((get GF256.LOG_TABLE 2 * -1) mod 255) = 142) /\
  (is_number (2 ^ 53 - 1) /\
   GF256.pow 3 (2 ^ 53 - 1) = 8 /\
   get GF256.EXP_TABLE ((get GF256.LOG_TABLE 3 * (2 ^ 53 - 1)) mod 255) = 116).
Proof.
  repeat split; try (vm_compute; reflexivity). discriminate.
Qed.

(** C8: [inverse] fails on zero, answers one on one, and otherwise the
    antilogarithm of [255 - log[a]] modulo 255; the product of a non-zero
    element and its inverse is one. *)
Theorem inverse_cases (a : Z) :
  is_byte a ->
  (a = 0 -> GF256.inverse a = Throw (Error "Division by zero")) /\
  (a = 1 -> GF256.inverse a = Ok 1) /\
  (a <> 0 -> a <> 1 ->
   GF256.inverse a =
   Ok (get GF256.EXP_TABLE ((255 - get GF256.LOG_TABLE a) mod 255))) /\
  (a <> 0 ->
   exists i, GF256.inverse a = Ok i /\ GF256.multiply a i = 1).
Proof.
  intros Ha. repeat split.
  - intros ->. reflexivity.
  - intros ->. reflexivity.
  - intros Hn0 Hn1. unfold GF256.inverse.
    destruct (Z.eqb_spec a 0); [contradiction |].
    destruct (Z.eqb_spec a 1); [contradiction |].
    destruct (log_exp a Ha Hn0) as [Hl _].
    rewrite Z.rem_mod_nonneg by lia. f_equal. apply u8_byte.
    destruct (exp_log ((255 - get GF256.LOG_TABLE a) mod 255)) as [Hr _].
    + apply Z.mod_pos_bound. lia.
    + unfold is_byte. lia.
  - intros Hn0. destruct (inverse_nonzero a Ha Hn0) as (i & Ei & _ & Hm).
    exists i. split; assumption.
Qed.

Lemma inverse_cases_witness :
  is_byte 3 /\
  exists i, GF256.inverse 3 = Ok i /\ GF256.multiply 3 i = 1.
Proof.
  split; [unfold is_byte; lia |].
  apply (inverse_cases 3); [unfold is_byte; lia | discriminate].
Defined.

(** C9: with the tables that [initLogTable] and [initExpTable] build, the
    table product of two bytes is their shift-and-XOR product modulo 0x11D. *)
Theorem multiply_refines_multiplyWithoutTables (a b : Z) :
  is_byte a -> is_byte b ->
  GF256.LOG_TABLE = GF256.initLogTable /\
  GF256.EXP_TABLE = GF256.initExpTable /\
  GF256.multiply a b = GF256.multiplyWithoutTables a b.
Proof.
  intros Ha Hb. destruct tables_initialised as [EL EE].
  repeat split; try assumption. now apply multiply_agree.
Qed.

Lemma multiply_refines_multiplyWithoutTables_witness :
  is_byte 87 /\ is_byte 131 /\
  GF256.multiply 87 131 = GF256.multiplyWithoutTables 87 131.
Proof.
  split; [unfold is_byte; lia |]. split; [unfold is_byte; lia |].
  apply (multiply_refines_multiplyWithoutTables 87 131); unfold is_byte; lia.
Defined.

(** * Concrete instances *)

Lemma sum_digest_length (m : list Z) : length (sum_digest m) = 32%nat.
Proof. apply repeat_length. Qed.

Lemma sum_digest_bytes (m : list Z) : Forall is_byte (sum_digest m).
Proof.
  apply Forall_forall. intros v Hv. apply repeat_spec in Hv. subst v.
  apply u8_is_byte.
Qed.

(** C2 as stated fails on the empty secret: the shares are created inside the
    loop over the bytes of the secret, so [split] returns no share at all. *)
Lemma split_empty_secret :
  fst (KeySharing.split sum_digest [] sample_rng) = [] /\
  length (fst (KeySharing.split sum_digest [] sample_rng)) <> 3%nat.
Proof. split; [reflexivity | discriminate]. Qed.

(** C1 as stated fails on the empty secret: there are no three shares to pair,
    and [reconstruct] on what [split] returned fails. *)
Lemma roundtrip_fails_on_empty_secret :
  ~ (exists s1 s2 s3,
       fst (KeySharing.split sum_digest [] sample_rng) = [s1; s2; s3]) /\
  KeySharing.reconstruct sum_digest
    (fst (KeySharing.split sum_digest [] sample_rng)) =
  Throw (Error "Need at least 2 shares to reconstruct").
Proof.
  split; [| reflexivity].
  intros (s1 & s2 & s3 & E). discriminate E.
Qed.

Lemma split_shape_witness :
  [0x41; 0x42] <> [] /\
  exists y1 y2 y3 h1 h2 h3,
    fst (KeySharing.split sum_digest [0x41; 0x42] sample_rng) =
      [mkShare deviceShare 1 y1 1 h1;
       mkShare serverShare 2 y2 1 h2;
       mkShare recoveryShare 3 y3 1 h3] /\
    length y1 = 2%nat /\ length y2 = 2%nat /\ length y3 = 2%nat.
Proof.
  split; [discriminate |].
  apply (split_shape sum_digest [0x41; 0x42] sample_rng). discriminate.
Defined.

Lemma split_reconstruct_roundtrip_witness :
  [0x41; 0x42] <> [] /\ Forall is_byte [0x41; 0x42] /\
  exists s1 s2 s3,
    fst (KeySharing.split sum_digest [0x41; 0x42] sample_rng) = [s1; s2; s3] /\
    KeySharing.reconstruct sum_digest [s1; s2] = Ok [0x41; 0x42] /\
    KeySharing.reconstruct sum_digest [s1; s3] = Ok [0x41; 0x42] /\
    KeySharing.reconstruct sum_digest [s2; s3] = Ok [0x41; 0x42] /\
    KeySharing.reconstruct sum_digest [s2; s1] = Ok [0x41; 0x42] /\
    KeySharing.reconstruct sum_digest [s3; s1] = Ok [0x41; 0x42] /\
    KeySharing.reconstruct sum_digest [s3; s2] = Ok [0x41; 0x42] /\
    KeySharing.reconstruct sum_digest [s1; s2; s3] = Ok [0x41; 0x42].
Proof.
  split; [discriminate |].
  split; [repeat constructor; unfold is_byte; lia |].
  apply (split_reconstruct_roundtrip sum_digest sum_digest_length
           [0x41; 0x42] sample_rng).
  - discriminate.
  - repeat constructor; unfold is_byte; lia.
Defined.

Lemma generateCompatibleShare_third_witness :
  exists d,
    KeySharing.generateCompatibleShare sum_digest [0; 0]
      [at_ sample_shares 0; at_ sample_shares 1]
      (type (at_ sample_shares 2)) = Ok d /\
    y d = y (at_ sample_shares 2) /\
    KeySharing.reconstruct sum_digest [at_ sample_shares 0; at_ sample_shares 1] =
      Ok (map u8 [0x41; 0x42]) /\
    KeySharing.reconstruct sum_digest [d; at_ sample_shares 0] =
      KeySharing.reconstruct sum_digest [at_ sample_shares 0; at_ sample_shares 1] /\
    KeySharing.reconstruct sum_digest [d; at_ sample_shares 1] =
      KeySharing.reconstruct sum_digest [at_ sample_shares 0; at_ sample_shares 1] /\
    KeySharing.reconstruct sum_digest [at_ sample_shares 0; d] =
      KeySharing.reconstruct sum_digest [at_ sample_shares 0; at_ sample_shares 1] /\
    KeySharing.reconstruct sum_digest [at_ sample_shares 1; d] =
      KeySharing.reconstruct sum_digest [at_ sample_shares 0; at_ sample_shares 1].
Proof.
  apply (generateCompatibleShare_third sum_digest sum_digest_length
           [0x41; 0x42] [0; 0] sample_rng).
  - vm_compute. left. reflexivity.
  - vm_compute. right. left. reflexivity.
  - vm_compute. right. right. left. reflexivity.
  - vm_compute. discriminate.
  - vm_compute. discriminate.
  - vm_compute. discriminate.
  - reflexivity.
Defined.

Lemma reconstruct_duplicate_coordinate_witness :
  x (at_ sample_shares 0) = x (at_ other_shares 0) /\
  y (at_ sample_shares 0) <> [] /\
  KeySharing.reconstruct sum_digest [at_ sample_shares 0; at_ other_shares 0] =
  Throw (Error "Division by zero").
Proof.
  split; [reflexivity |]. split; [vm_compute; discriminate |].
  apply (reconstruct_duplicate_coordinate sum_digest).
  - vm_compute. reflexivity.
  - vm_compute. reflexivity.
  - reflexivity.
  - reflexivity.
  - vm_compute. discriminate.
Defined.

Lemma generateCompatibleShare_privateKey_length_witness :
  length [0; 0] = length [0x41; 0x42] /\
  KeySharing.generateCompatibleShare sum_digest [0; 0]
    [at_ sample_shares 0; at_ sample_shares 1] recoveryShare =
  KeySharing.generateCompatibleShare sum_digest [0x41; 0x42]
    [at_ sample_shares 0; at_ sample_shares 1] recoveryShare.
Proof.
  split; [reflexivity |].
  apply (generateCompatibleShare_privateKey_length sum_digest [0; 0] [0x41; 0x42]
           [at_ sample_shares 0; at_ sample_shares 1]
           [at_ sample_shares 0; at_ sample_shares 1] recoveryShare).
  reflexivity.
Defined.

Lemma verifyShare_malformed_tag_witness :
  hash (with_hash (at_ sample_shares 1) "ab") = "ab"%string /\
  KeySharing.verifyShare sum_digest (with_hash (at_ sample_shares 1) "ab") =
    Throw (RangeError "Input buffers must have the same byte length") /\
  KeySharing.verifyShare_cryptojs sum_digest (with_hash (at_ sample_shares 1) "ab") =
    Ok false.
Proof.
  split; [reflexivity |].
  apply (verifyShare_malformed_tag sum_digest sum_digest_length sum_digest_bytes).
  reflexivity.
Defined.

Lemma reconstruct_malformed_tag_witness :
  hash (with_hash (at_ sample_shares 0) "ab") = "ab"%string /\
  KeySharing.reconstruct sum_digest
    [with_hash (at_ sample_shares 0) "ab"; at_ sample_shares 1] =
    Throw (RangeError "Input buffers must have the same byte length") /\
  KeySharing.reconstruct sum_digest
    [with_hash (at_ sample_shares 0) "ab"; at_ sample_shares 1] <>
    Throw (Error "Invalid or tampered shares detected").
Proof.
  split; [reflexivity |].
  apply (reconstruct_malformed_tag sum_digest sum_digest_length sum_digest_bytes).
  reflexivity.
Defined.

(** * Further properties of the field arithmetic *)

(** X1: on bytes, [multiply] is commutative and associative, has [1] as its
    neutral element, and answers a byte. *)
Theorem multiply_commutative_monoid (a b c : Z) :
  is_byte a -> is_byte b -> is_byte c ->
  GF256.multiply a b = GF256.multiply b a /\
  GF256.multiply (GF256.multiply a b) c = GF256.multiply a (GF256.multiply b c) /\
  GF256.multiply a 1 = a /\
  GF256.multiply 1 a = a /\
  is_byte (GF256.multiply a b).
Proof.
  intros Ha Hb Hc. repeat split.
  - apply multiply_comm.
  - now apply multiply_assoc.
  - now apply multiply_1_r.
  - now apply multiply_1_l.
  - apply multiply_is_byte.
  - apply multiply_is_byte.
Qed.

Lemma multiply_commutative_monoid_witness :
  GF256.multiply (GF256.multiply 87 131) 29 =
  GF256.multiply 87 (GF256.multiply 131 29).
Proof.
  apply (multiply_commutative_monoid 87 131 29); unfold is_byte; lia.
Defined.

Lemma add_bytes (a b : Z) :
  is_byte a -> is_byte b -> GF256.add a b = Z.lxor a b.
Proof. intros Ha Hb. apply u8_byte. now apply lxor_is_byte. Qed.

(** X2: on bytes, [multiply] distributes over [add] on either side. *)
Theorem multiply_distributes_over_add (a b c : Z) :
  is_byte a -> is_byte b -> is_byte c ->
  GF256.multiply (GF256.add a b) c =
    GF256.add (GF256.multiply a c) (GF256.multiply b c) /\
  GF256.multiply c (GF256.add a b) =
    GF256.add (GF256.multiply c a) (GF256.multiply c b).
Proof.
  intros Ha Hb Hc.
  rewrite !add_bytes by (try apply multiply_is_byte; assumption).
  split; [now apply multiply_xor_l | now apply multiply_xor_r].
Qed.

Lemma multiply_distributes_over_add_witness :
  GF256.multiply (GF256.add 87 131) 29 =
  GF256.add (GF256.multiply 87 29) (GF256.multiply 131 29).
Proof.
  apply (multiply_distributes_over_add 87 131 29); unfold is_byte; lia.
Defined.

(** X3: the field has no zero divisors: a product of bytes is zero exactly
    when one of the factors is. *)
Theorem multiply_zero_iff (a b : Z) :
  is_byte a -> is_byte b ->
  (GF256.multiply a b = 0 <-> a = 0 \/ b = 0).
Proof.
  intros Ha Hb. split.
  - intros H0. destruct (Z.eq_dec a 0) as [| Hna]; [now left |].
    destruct (Z.eq_dec b 0) as [| Hnb]; [now right |].
    destruct (multiply_nonzero a b Ha Hb Hna Hnb) as (_ & Hr & _). lia.
  - intros [-> | ->]; [apply multiply_0_l | apply multiply_0_r].
Qed.

Lemma multiply_zero_iff_witness :
  GF256.multiply 87 131 = 0 <-> 87 = 0 \/ 131 = 0.
Proof. apply (multiply_zero_iff 87 131); unfold is_byte; lia. Defined.

(** X4: the two tables have 256 entries each and are inverse to each other:
    [exp[log[a]] = a] for every non-zero byte, and [log[exp[k]] = k] with
    [exp[k]] a non-zero byte for every [k] below 255; the wrap entry
    [exp[255]] repeats [exp[0] = 1]. *)
Theorem tables_inverse (a k : Z) :
  is_byte a -> a <> 0 -> 0 <= k < 255 ->
  length GF256.LOG_TABLE = 256%nat /\
  length GF256.EXP_TABLE = 256%nat /\
  0 <= get GF256.LOG_TABLE a < 255 /\
  get GF256.EXP_TABLE (get GF256.LOG_TABLE a) = a /\
  1 <= get GF256.EXP_TABLE k < 256 /\
  get GF256.LOG_TABLE (get GF256.EXP_TABLE k) = k /\
  get GF256.EXP_TABLE 255 = get GF256.EXP_TABLE 0 /\
  get GF256.EXP_TABLE 0 = 1.
Proof.
  intros Ha Hna Hk.
  destruct (log_exp a Ha Hna) as [Hl He], (exp_log k Hk) as [Hr Hi].
  repeat split; try assumption; try reflexivity; lia.
Qed.

Lemma tables_inverse_witness :
  get GF256.EXP_TABLE (get GF256.LOG_TABLE 87) = 87 /\
  get GF256.LOG_TABLE (get GF256.EXP_TABLE 200) = 200.
Proof.
  pose proof (tables_inverse 87 200) as H.
  assert (Ha : is_byte 87) by (unfold is_byte; lia).
  assert (Hn : 87 <> 0) by discriminate.
  assert (Hk : 0 <= 200 < 255) by lia.
  destruct (H Ha Hn Hk) as (_ & _ & _ & E1 & _ & E2 & _).
  split; assumption.
Defined.

(** X5: on bytes, [add] answers a byte and is commutative and associative
    with neutral element [0], every element is its own opposite, and
    [subtract] undoes it. *)
Theorem add_group (a b c : Z) :
  is_byte a -> is_byte b -> is_byte c ->
  is_byte (GF256.add a b) /\
  GF256.add a b = GF256.add b a /\
  GF256.add (GF256.add a b) c = GF256.add a (GF256.add b c) /\
  GF256.add a 0 = a /\
  GF256.add a a = 0 /\
  GF256.subtract (GF256.add a b) b = a.
Proof.
  intros Ha Hb Hc. unfold GF256.subtract.
  assert (H0 : is_byte 0) by (unfold is_byte; lia).
  rewrite (add_bytes a b), (add_bytes b c), (add_bytes b a), (add_bytes a 0),
    (add_bytes a a) by assumption.
  rewrite !add_bytes by (try apply lxor_is_byte; assumption).
  repeat split.
  - now apply lxor_is_byte.
  - now apply lxor_is_byte.
  - apply Z.lxor_comm.
  - apply Z.lxor_assoc.
  - apply Z.lxor_0_r.
  - apply Z.lxor_nilpotent.
  - now rewrite Z.lxor_assoc, Z.lxor_nilpotent, Z.lxor_0_r.
Qed.

Lemma add_group_witness :
  GF256.subtract (GF256.add 87 131) 131 = 87.
Proof. apply (add_group 87 131 0); unfold is_byte; lia. Defined.

(** On a non-zero base and a positive exponent whose product with the
    logarithm is exact, [pow] reads the tables. *)
Lemma pow_log (b n : Z) :
  is_byte b -> b <> 0 -> 0 < n -> n < 2 ^ 45 ->
  GF256.pow b n = get GF256.EXP_TABLE ((get GF256.LOG_TABLE b * n) mod 255) /\
  1 <= GF256.pow b n < 256 /\
  get GF256.LOG_TABLE (GF256.pow b n) = (get GF256.LOG_TABLE b * n) mod 255.
Proof.
  intros Hb Hnz Hn Hmax. destruct (log_exp b Hb Hnz) as [Hl _].
  assert (Hk : 0 <= (get GF256.LOG_TABLE b * n) mod 255 < 255)
    by (apply Z.mod_pos_bound; lia).
  destruct (exp_log _ Hk) as [Hr Hi].
  assert (B : 255 * 2 ^ 45 < 2 ^ 53) by reflexivity.
  assert (E : GF256.pow b n =
              get GF256.EXP_TABLE ((get GF256.LOG_TABLE b * n) mod 255)).
  { rewrite pow_table, number_mul_exact by (try assumption; nia).
    now rewrite Z.rem_mod_nonneg by nia. }
  rewrite E. auto.
Qed.

(** X6: [pow] is iterated multiplication as long as the product of logarithm
    and exponent is exact: for every byte base and every exponent from zero
    to below [2^45 - 1], raising the exponent by one multiplies by the
    base. *)
Theorem pow_successor (b n : Z) :
  is_byte b -> 0 <= n -> n + 1 < 2 ^ 45 ->
  GF256.pow b (n + 1) = GF256.multiply (GF256.pow b n) b.
Proof.
  intros Hb Hn Hmax.
  destruct (Z.eq_dec b 0) as [-> | Hnz]; [now rewrite multiply_0_r |].
  destruct (log_exp b Hb Hnz) as [Hl _].
  destruct (pow_log b (n + 1) Hb Hnz) as (E1 & _); [lia | lia |].
  destruct (Z.eq_dec n 0) as [-> | Hn0].
  - change (GF256.pow b 0) with (if b =? 0 then u8 0 else u8 1).
    destruct (Z.eqb_spec b 0); [contradiction |].
    change (u8 1) with 1. rewrite multiply_1_l by assumption.
    rewrite E1. change (0 + 1) with 1.
    rewrite Z.mul_1_r, Z.mod_small by lia. now apply log_exp.
  - destruct (pow_log b n Hb Hnz) as (_ & Hr & Hi); [lia | lia |].
    destruct (multiply_nonzero (GF256.pow b n) b) as (E2 & _);
      [unfold is_byte; lia | assumption | lia | assumption |].
    rewrite E1, E2, Hi, Z.add_mod_idemp_l by lia.
    f_equal. f_equal. lia.
Qed.

Lemma pow_successor_witness :
  GF256.pow 2 9 = GF256.multiply (GF256.pow 2 8) 2.
Proof.
  apply (pow_successor 2 8); [unfold is_byte; lia | lia | reflexivity].
Defined.

(** X7: as long as the product of logarithm and exponent is exact, the powers
    of a byte repeat with period 255: [pow(b, n + 255) = pow(b, n)] for every
    exponent [n] from zero on with [n + 255] below [2^45]; so the 255th power
    of a non-zero byte is one. *)
Theorem pow_period (b n : Z) :
  is_byte b -> 0 <= n -> n + 255 < 2 ^ 45 ->
  GF256.pow b (n + 255) = GF256.pow b n /\
  (b <> 0 -> GF256.pow b 255 = 1).
Proof.
  intros Hb Hn Hmax.
  assert (P : b <> 0 -> GF256.pow b 255 = 1).
  { intros Hnz. destruct (pow_log b 255 Hb Hnz) as (E & _);
      [lia | reflexivity |].
    rewrite E, Z.mod_mul by lia. reflexivity. }
  split; [| exact P].
  destruct (Z.eq_dec b 0) as [-> | Hnz]; [reflexivity |].
  destruct (Z.eq_dec n 0) as [-> | Hn0].
  - change (0 + 255) with 255. rewrite P by assumption.
    unfold GF256.pow. destruct (Z.eqb_spec b 0); [contradiction | reflexivity].
  - destruct (pow_log b (n + 255) Hb Hnz) as (E1 & _); [lia | lia |].
    destruct (pow_log b n Hb Hnz) as (E2 & _); [lia | lia |].
    rewrite E1, E2, Z.mul_add_distr_l, Z.mod_add by lia. reflexivity.
Qed.

Lemma pow_period_witness : GF256.pow 3 (7 + 255) = GF256.pow 3 7.
Proof.
  apply (pow_period 3 7); [unfold is_byte; lia | lia | reflexivity].
Defined.

(** Beyond the exact products both laws fail: at exponents around [2^52] the
    product with [log[3] = 25] is rounded to a multiple of 8 before the
    remainder is taken. *)
Lemma pow_laws_need_exact_products :
  is_number (2 ^ 52) /\ is_number (2 ^ 52 + 1) /\ is_number (2 ^ 52 + 255) /\
  GF256.pow 3 (2 ^ 52 + 1) = 219 /\
  GF256.multiply (GF256.pow 3 (2 ^ 52)) 3 = 215 /\
  GF256.pow 3 (2 ^ 52 + 255) = 33 /\
  GF256.pow 3 (2 ^ 52) = 77.
Proof. repeat split; vm_compute; reflexivity. Qed.

(** X8: the inverse of a non-zero byte is a non-zero byte whose inverse is
    the byte itself. *)
Theorem inverse_involutive (a : Z) :
  is_byte a -> a <> 0 ->
  exists i,
    GF256.inverse a = Ok i /\ is_byte i /\ i <> 0 /\ GF256.inverse i = Ok a.
Proof.
  intros Ha Hna.
  destruct (inverse_nonzero a Ha Hna) as (i & Ei & Hi & Hai).
  assert (Hni : i <> 0).
  { intros ->. rewrite multiply_0_r in Hai. discriminate. }
  destruct (inverse_nonzero i Hi Hni) as (j & Ej & Hj & Hij).
  exists i. split; [assumption |]. split; [assumption |]. split; [assumption |].
  rewrite Ej. f_equal.
  rewrite <- (multiply_1_l j Hj), <- Hai, multiply_assoc, Hij by assumption.
  now apply multiply_1_r.
Qed.

Lemma inverse_involutive_witness :
  exists i,
    GF256.inverse 3 = Ok i /\ is_byte i /\ i <> 0 /\ GF256.inverse i = Ok 3.
Proof.
  apply (inverse_involutive 3); [unfold is_byte; lia | discriminate].
Defined.

Lemma inverse_pow_check : forallb inverse_pow_ok all_bytes = true.
Proof. vm_compute. reflexivity. Qed.

(** X9: the inverse of a non-zero byte is its 254th power. *)
Theorem inverse_is_pow_254 (a : Z) :
  is_byte a -> a <> 0 -> GF256.inverse a = Ok (GF256.pow a 254).
Proof.
  intros Ha Hna. pose proof (forall_bytes _ inverse_pow_check a Ha) as H.
  unfold inverse_pow_ok in H. rewrite orb_true_iff, Z.eqb_eq in H.
  destruct H as [H | H]; [contradiction |].
  destruct (GF256.inverse a) as [i |]; [| discriminate].
  f_equal. now apply Z.eqb_eq.
Qed.

Lemma inverse_is_pow_254_witness : GF256.inverse 3 = Ok (GF256.pow 3 254).
Proof.
  apply (inverse_is_pow_254 3); [unfold is_byte; lia | discriminate].
Defined.

(** X10: the shift-and-XOR product is XOR-linear in its first argument on all
    integers, and on bytes it is commutative and answers a byte. *)
Theorem multiplyWithoutTables_linear (a1 a2 b : Z) :
  is_byte a1 -> is_byte b ->
  GF256.multiplyWithoutTables (Z.lxor a1 a2) b =
    Z.lxor (GF256.multiplyWithoutTables a1 b) (GF256.multiplyWithoutTables a2 b) /\
  GF256.multiplyWithoutTables a1 b = GF256.multiplyWithoutTables b a1 /\
  is_byte (GF256.multiplyWithoutTables a1 b).
Proof.
  intros Ha Hb. split; [apply multiplyWithoutTables_xor |].
  rewrite <- !multiply_agree by assumption.
  split; [apply multiply_comm | apply multiply_is_byte].
Qed.

Lemma multiplyWithoutTables_linear_witness :
  GF256.multiplyWithoutTables (Z.lxor 87 1000) 131 =
  Z.lxor (GF256.multiplyWithoutTables 87 131) (GF256.multiplyWithoutTables 1000 131).
Proof.
  apply (multiplyWithoutTables_linear 87 1000 131); unfold is_byte; lia.
Defined.

(** * Further properties of the engine *)

Section EngineCoverage.

Variable sha256 : list Z -> list Z.
Hypothesis sha256_length : forall m, length (sha256 m) = 32%nat.
Hypothesis sha256_bytes : forall m, Forall is_byte (sha256 m).

(** ** [split] *)

(** X11: [split] takes exactly one draw from the random source per byte of
    the secret: the source it leaves behind is the one it received, advanced
    by the length of the secret. *)
Theorem split_one_draw_per_byte (pk : list Z) (rng : Rng) (m : nat) :
  snd (KeySharing.split sha256 pk rng) m = rng (length pk + m)%nat.
Proof.
  rewrite split_unfold.
  destruct (split_loop pk rng (length pk) (le_n _)) as (rng_n & E & Hr).
  rewrite E. cbn [snd]. apply Hr.
Qed.

Lemma stamped_facts (t : ShareType) (ys : list Z) :
  let share := stamped sha256 t ys in
  type share = t /\ x share = coordinate t /\ y share = ys /\
  version share = 1 /\
  hash share = KeySharing.calculateShareHash sha256 share.
Proof. cbv zeta. repeat split. Qed.

(** X12: every share that [split] returns verifies, carries the tag of its
    own contents (64 hexadecimal characters), version 1, the coordinate of its
    identity, and a payload of bytes as long as the secret. *)
Theorem split_shares_verify (pk : list Z) (rng : Rng) (share : Share) :
  In share (fst (KeySharing.split sha256 pk rng)) ->
  KeySharing.verifyShare sha256 share = Ok true /\
  hash share = KeySharing.calculateShareHash sha256 share /\
  String.length (hash share) = 64%nat /\
  version share = 1 /\
  x share = coordinate (type share) /\
  length (y share) = length pk /\
  Forall is_byte (y share).
Proof.
  intros Hin. apply in_split in Hin. destruct Hin as [t ->].
  split; [now apply verifyShare_stamped |].
  split; [reflexivity |].
  split.
  { cbn [stamped with_hash hash]. unfold KeySharing.calculateShareHash.
    now rewrite to_hex_length, sha256_length. }
  split; [reflexivity |]. split; [reflexivity |].
  cbn [stamped with_hash y].
  split; [apply evaluations_length | apply evaluations_bytes].
Qed.

(** ** Hiding *)

Lemma slope_for_spec (s' v k : Z) :
  is_byte s' -> is_byte v -> is_byte k -> k <> 0 ->
  is_byte (slope_for s' v k) /\ poly s' (slope_for s' v k) k = v.
Proof.
  intros Hs Hv Hk Hnz. unfold slope_for.
  destruct (inverse_nonzero k Hk Hnz) as (i & Ei & Hi & Hki).
  rewrite Ei. split; [apply multiply_is_byte |].
  unfold poly.
  rewrite multiply_assoc by (try apply lxor_is_byte; assumption).
  rewrite (multiply_comm i k), Hki.
  rewrite multiply_1_r by now apply lxor_is_byte.
  now rewrite <- Z.lxor_assoc, Z.lxor_nilpotent, Z.lxor_0_l.
Qed.

Lemma hiding_evaluations (pk pk' : list Z) (rng : Rng) (k : Z) :
  length pk' = length pk -> is_byte k -> k <> 0 ->
  evaluations pk' (hiding_rng pk pk' rng k) k = evaluations pk rng k.
Proof.
  intros Hlen Hk Hnz. unfold evaluations. rewrite Hlen.
  apply map_ext. intros b. unfold hiding_rng.
  destruct (slope_for_spec (u8 (nth b pk' 0))
              (poly (u8 (nth b pk 0)) (u8 (rng b)) k) k) as [Hb Hp];
    try assumption; try apply u8_is_byte.
  { apply poly_is_byte, u8_is_byte. }
  now rewrite (u8_byte _ Hb).
Qed.

(** X13: a single share hides the secret: for each of the three positions and
    every other secret of the same length, some sequence of draws makes
    [split] return for that secret the very same share, tag included. *)
Theorem split_hiding (pk pk' : list Z) (rng : Rng) (i : nat) :
  length pk' = length pk -> (i < 3)%nat ->
  exists rng',
    at_ (fst (KeySharing.split sha256 pk' rng')) i =
    at_ (fst (KeySharing.split sha256 pk rng)) i.
Proof.
  intros Hlen Hi.
  destruct pk as [| p pk].
  { destruct pk'; [| discriminate]. exists rng. reflexivity. }
  assert (Hne' : pk' <> []) by (destruct pk'; [discriminate | discriminate]).
  exists (hiding_rng (p :: pk) pk' rng (Z.of_nat i + 1)).
  rewrite !split_eq by (assumption || discriminate).
  destruct i as [| [| [| i]]]; [| | | lia]; cbn [at_ nth Z.of_nat Z.add];
    unfold stamped; cbn [coordinate];
    (rewrite hiding_evaluations;
     [reflexivity | assumption | unfold is_byte; cbn; lia | cbn; discriminate]).
Qed.

(** ** [verifyShare] *)

Lemma Buffer_from_hex_app (d : list Z) (suffix : string) :
  Forall is_byte d ->
  Buffer_from_hex (to_hex d ++ suffix) = d ++ Buffer_from_hex suffix.
Proof.
  induction 1 as [| b d Hb _ IH]; [reflexivity |].
  unfold is_byte in Hb. cbn [to_hex String.append Buffer_from_hex].
  rewrite !unhex_hex_digit, IH.
  - cbn [app]. f_equal. symmetry. apply Z.div_mod. lia.
  - apply Z.mod_pos_bound. lia.
  - split; [apply Z.div_pos; lia | apply Z.div_lt_upper_bound; lia].
Qed.

(** X14: the comparison is on decoded bytes, so [verifyShare] also accepts
    the right tag followed by any text at which hexadecimal decoding stops
    (text that does not begin with two hexadecimal digits). *)
Theorem verifyShare_accepts_trailing_text (share : Share) (suffix : string) :
  Buffer_from_hex suffix = [] ->
  hash share = (KeySharing.calculateShareHash sha256 share ++ suffix)%string ->
  KeySharing.verifyShare sha256 share = Ok true.
Proof.
  intros Hs Hh.
  assert (D : Buffer_from_hex (hash share) = sha256 (tag_input share)).
  { rewrite Hh. unfold KeySharing.calculateShareHash.
    rewrite Buffer_from_hex_app by apply sha256_bytes.
    rewrite Hs. apply app_nil_r. }
  destruct (verifyShare_cases sha256 sha256_length sha256_bytes share)
    as (_ & H32 & _).
  fold (tag_input share) in H32. rewrite D in H32.
  rewrite H32.
  - f_equal. now apply bytes_eqb_eq.
  - rewrite Hh. unfold KeySharing.calculateShareHash.
    pose proof (sha256_length (tag_input share)) as L.
    unfold tag_input in L.
    destruct (sha256 ([u8 (x share)] ++ y share ++
                      utf8 (ShareType_string (type share)))); discriminate.
  - apply sha256_length.
Qed.

(** ** The precondition checks *)

(** X15: [reconstruct] reports its failures in a fixed order: below two shares
    the insufficient-shares error; else, when every [verifyShare] returns and
    one returns [false], the tampered-share error, whatever the versions;
    else, when all verify and two versions differ, the version error,
    whatever the coordinates; else the outcome of the interpolation. *)
Theorem reconstruct_error_order (shares : list Share) :
  ((length shares < 2)%nat ->
   KeySharing.reconstruct sha256 shares =
   Throw (Error "Need at least 2 shares to reconstruct")) /\
  ((2 <= length shares)%nat ->
   Forall (fun share => exists ok, KeySharing.verifyShare sha256 share = Ok ok) shares ->
   Exists (fun share => KeySharing.verifyShare sha256 share = Ok false) shares ->
   KeySharing.reconstruct sha256 shares =
   Throw (Error "Invalid or tampered shares detected")) /\
  ((2 <= length shares)%nat ->
   Forall (fun share => KeySharing.verifyShare sha256 share = Ok true) shares ->
   (exists a b, In a shares /\ In b shares /\ version a <> version b) ->
   KeySharing.reconstruct sha256 shares =
   Throw (Error "Incompatible share versions")) /\
  (checks_pass sha256 shares ->
   KeySharing.reconstruct sha256 shares =
   lagrange shares 0 (length (y (at_ shares 0)))).
Proof. exact (reconstruct_preconditions sha256 shares). Qed.

(** X16: [generateCompatibleShare] runs the same three checks in the same
    order before it derives anything, with its own insufficient-shares
    message. *)
Theorem generateCompatibleShare_error_order (privateKey : list Z)
    (shares : list Share) (t : ShareType) :
  ((length shares < 2)%nat ->
   KeySharing.generateCompatibleShare sha256 privateKey shares t =
   Throw (Error "Need at least 2 existing shares to generate compatible share")) /\
  ((2 <= length shares)%nat ->
   Forall (fun share => exists ok, KeySharing.verifyShare sha256 share = Ok ok) shares ->
   Exists (fun share => KeySharing.verifyShare sha256 share = Ok false) shares ->
   KeySharing.generateCompatibleShare sha256 privateKey shares t =
   Throw (Error "Invalid or tampered shares detected")) /\
  ((2 <= length shares)%nat ->
   Forall (fun share => KeySharing.verifyShare sha256 share = Ok true) shares ->
   (exists a b, In a shares /\ In b shares /\ version a <> version b) ->
   KeySharing.generateCompatibleShare sha256 privateKey shares t =
   Throw (Error "Incompatible share versions")).
Proof.
  repeat split.
  - intros Hlen. unfold KeySharing.generateCompatibleShare.
    destruct (Nat.ltb_spec (length shares) 2); [reflexivity | lia].
  - intros Hlen Hall Hex. unfold KeySharing.generateCompatibleShare.
    destruct (Nat.ltb_spec (length shares) 2); [lia |].
    destruct (filter_r_some_invalid sha256 shares Hall) as (invalid & E & Hinv).
    rewrite E. cbn [bind]. destruct invalid; [now destruct Hinv | reflexivity].
  - intros Hlen Hall (a & b & Ha & Hb & Hne).
    unfold KeySharing.generateCompatibleShare.
    destruct (Nat.ltb_spec (length shares) 2); [lia |].
    rewrite filter_r_all_valid by assumption. cbn [bind].
    change (0 <? length (@nil Share))%nat with false. cbv iota.
    destruct (Nat.ltb_spec 1 (length (nodup Z.eq_dec (map version shares))));
      [reflexivity |].
    pose proof (nodup_two (map version shares) (version a) (version b)
                  (in_map version _ _ Ha) (in_map version _ _ Hb) Hne). lia.
Qed.

(** ** Tampering and versions *)

Lemma verifyShare_other_contents (share share' : Share) :
  hash share' = KeySharing.calculateShareHash sha256 share ->
  sha256 (tag_input share') <> sha256 (tag_input share) ->
  KeySharing.verifyShare sha256 share' = Ok false.
Proof.
  intros Hh Hd.
  assert (D : Buffer_from_hex (hash share') = sha256 (tag_input share))
    by (rewrite Hh; apply (calculated_tag_bytes sha256 sha256_bytes)).
  destruct (verifyShare_cases sha256 sha256_length sha256_bytes share')
    as (_ & H32 & _).
  fold (tag_input share') in H32. rewrite D in H32.
  rewrite H32.
  - f_equal. destruct (bytes_eqb _ _) eqn:E; [| reflexivity].
    apply bytes_eqb_eq in E. contradiction.
  - intros E. pose proof (calculateShareHash_nonempty sha256 sha256_length share) as N.
    rewrite <- Hh, E in N. discriminate.
  - apply sha256_length.
Qed.

(** X17: a share of [split] whose payload was replaced afterwards, so that the
    digest of its contents changed, makes [reconstruct] fail with the
    tampered-share error in whichever position it is supplied. *)
Theorem reconstruct_rejects_altered_payload (pk : list Z) (rng : Rng)
    (a b : Share) (ys : list Z) :
  In a (fst (KeySharing.split sha256 pk rng)) ->
  In b (fst (KeySharing.split sha256 pk rng)) ->
  sha256 (tag_input (with_y a ys)) <> sha256 (tag_input a) ->
  KeySharing.verifyShare sha256 (with_y a ys) = Ok false /\
  KeySharing.reconstruct sha256 [with_y a ys; b] =
    Throw (Error "Invalid or tampered shares detected") /\
  KeySharing.reconstruct sha256 [b; with_y a ys] =
    Throw (Error "Invalid or tampered shares detected").
Proof.
  intros Ia Ib Hd.
  assert (Va : KeySharing.verifyShare sha256 (with_y a ys) = Ok false).
  { apply verifyShare_other_contents with (share := a); [| assumption].
    apply in_split in Ia. destruct Ia as [t ->]. reflexivity. }
  assert (Vb : KeySharing.verifyShare sha256 b = Ok true).
  { apply in_split in Ib. destruct Ib as [t ->].
    now apply verifyShare_stamped. }
  split; [assumption |].
  split; apply reconstruct_preconditions;
    try (cbn; lia);
    try (repeat constructor; eexists; eassumption).
  - now left.
  - right. now left.
Qed.

(** X18: the tag does not cover the version: a share of [split] whose version
    was changed still verifies, and it is the version check that makes
    [reconstruct] fail when it is combined with an untouched share. *)
Theorem reconstruct_version_gate (pk : list Z) (rng : Rng) (a b : Share) (v : Z) :
  In a (fst (KeySharing.split sha256 pk rng)) ->
  In b (fst (KeySharing.split sha256 pk rng)) ->
  v <> 1 ->
  KeySharing.verifyShare sha256 (with_version b v) = Ok true /\
  KeySharing.reconstruct sha256 [a; with_version b v] =
    Throw (Error "Incompatible share versions").
Proof.
  intros Ia Ib Hv. apply in_split in Ia, Ib.
  destruct Ia as [ta ->], Ib as [tb ->].
  assert (Vb : KeySharing.verifyShare sha256
                 (with_version (stamped sha256 tb (evaluations pk rng (coordinate tb))) v)
               = Ok true)
    by (apply (verifyShare_own_tag sha256 sha256_length); reflexivity).
  split; [assumption |].
  apply reconstruct_preconditions.
  - cbn. lia.
  - repeat constructor; [now apply verifyShare_stamped | assumption].
  - exists (stamped sha256 ta (evaluations pk rng (coordinate ta))),
           (with_version (stamped sha256 tb (evaluations pk rng (coordinate tb))) v).
    split; [now left |]. split; [right; now left |].
    cbn. congruence.
Qed.

(** ** What the interpolation returns *)

Lemma set_nth_length (n : nat) (v : Z) (l : list Z) :
  length (set_nth n v l) = length l.
Proof.
  revert n. induction l as [| h l IH]; intros [| n]; cbn [set_nth length];
    try reflexivity. now rewrite IH.
Qed.

Lemma set_nth_bytes (n : nat) (v : Z) (l : list Z) :
  is_byte v -> Forall is_byte l -> Forall is_byte (set_nth n v l).
Proof.
  intros Hv Hl. revert n. induction Hl as [| h l Hh Hl IH]; intros [| n];
    cbn [set_nth]; try constructor; auto.
Qed.

(** A loop that stores bytes keeps the length of the array and leaves it an
    array of bytes. *)
Lemma store_loop_shape (f : nat -> result Z) (steps : list nat) :
  forall bytes out,
    Forall is_byte bytes ->
    for_each steps (fun byteIndex bytes =>
      result <- f byteIndex ;; Ok (set_nth byteIndex (u8 result) bytes)) bytes
    = Ok out ->
    length out = length bytes /\ Forall is_byte out.
Proof.
  induction steps as [| b steps IH]; intros bytes out Hb; cbn [for_each].
  - intros [= <-]. auto.
  - destruct (f b) as [v | e]; [| discriminate]. cbn [bind]. intros E.
    apply IH in E; [| apply set_nth_bytes; [apply u8_is_byte | assumption]].
    now rewrite set_nth_length in E.
Qed.

Lemma lagrange_shape (shares : list Share) (target : Z) (len : nat) (out : list Z) :
  lagrange shares target len = Ok out ->
  length out = len /\ Forall is_byte out.
Proof.
  unfold lagrange, for_index_r. intros E.
  apply store_loop_shape in E.
  - now rewrite repeat_length in E.
  - apply Forall_forall. intros v Hv. apply repeat_spec in Hv. subst v.
    unfold is_byte. lia.
Qed.

Lemma reconstruct_success (shares : list Share) (out : list Z) :
  KeySharing.reconstruct sha256 shares = Ok out ->
  lagrange shares 0 (length (y (at_ shares 0))) = Ok out.
Proof.
  unfold KeySharing.reconstruct.
  destruct (length shares <? 2)%nat; [discriminate |].
  destruct (filter_r _ shares) as [invalid |]; [| discriminate].
  cbn [bind]. destruct (0 <? length invalid)%nat; [discriminate |].
  destruct (1 <? length (nodup Z.eq_dec (map version shares)))%nat; [discriminate |].
  intros E. exact E.
Qed.

(** X19: whenever [reconstruct] returns, it returns as many bytes as the
    payload of the first share has, each of them a byte; the payloads of the
    other shares do not enter the length. *)
Theorem reconstruct_output_shape (shares : list Share) (out : list Z) :
  KeySharing.reconstruct sha256 shares = Ok out ->
  length out = length (y (at_ shares 0)) /\ Forall is_byte out.
Proof. intros E. apply reconstruct_success in E. now apply lagrange_shape in E. Qed.

Lemma generateCompatibleShare_success (privateKey : list Z)
    (shares : list Share) (t : ShareType) (d : Share) :
  KeySharing.generateCompatibleShare sha256 privateKey shares t = Ok d ->
  exists bytes,
    lagrange shares (coordinate t) (length privateKey) = Ok bytes /\
    d = with_hash (mkShare t (coordinate t) bytes (version (at_ shares 0)) EmptyString)
          (KeySharing.calculateShareHash sha256
             (mkShare t (coordinate t) bytes (version (at_ shares 0)) EmptyString)).
Proof.
  unfold KeySharing.generateCompatibleShare.
  destruct (length shares <? 2)%nat; [discriminate |].
  destruct (filter_r _ shares) as [invalid |]; [| discriminate].
  cbn [bind]. destruct (0 <? length invalid)%nat; [discriminate |].
  destruct (1 <? length (nodup Z.eq_dec (map version shares)))%nat; [discriminate |].
  unfold for_index_r at 1.
  rewrite (new_share_loop (fun xs byteIndex =>
    for_index_r (length shares) (fun i result =>
      term <- for_index_r (length shares) (fun j term =>
                if (i =? j)%nat then Ok term
                else
                  inv <- GF256.inverse (GF256.subtract (x (at_ shares i)) (x (at_ shares j))) ;;
                  Ok (GF256.multiply term (GF256.multiply (GF256.subtract xs (x (at_ shares j))) inv)))
              (u8 (nth byteIndex (y (at_ shares i)) 0)) ;;
      Ok (GF256.add result term)) (u8 0))).
  unfold lagrange, lagrange_byte, lagrange_term, for_index_r, coordinate.
  cbn [x y].
  match goal with |- bind (bind ?m _) _ = _ -> _ => destruct m as [bytes |] end;
    [| discriminate].
  cbn [bind with_y with_hash]. intros [= <-]. exists bytes. split; reflexivity.
Qed.

(** X20: every share that [generateCompatibleShare] returns has the requested
    identity with its bound coordinate, the version of the first existing
    share, a payload of bytes as long as the [privateKey] argument, and a tag
    under which it verifies. *)
Theorem generateCompatibleShare_output_shape (privateKey : list Z)
    (shares : list Share) (t : ShareType) (d : Share) :
  KeySharing.generateCompatibleShare sha256 privateKey shares t = Ok d ->
  type d = t /\
  x d = coordinate t /\
  version d = version (at_ shares 0) /\
  length (y d) = length privateKey /\
  Forall is_byte (y d) /\
  KeySharing.verifyShare sha256 d = Ok true.
Proof.
  intros E. apply generateCompatibleShare_success in E.
  destruct E as (bytes & L & ->). apply lagrange_shape in L. destruct L as [Ll Lb].
  cbn [with_hash type x y version].
  repeat split; try assumption.
  apply (verifyShare_own_tag sha256 sha256_length). reflexivity.
Qed.

(** X21: with two shares that pass the checks but carry the same coordinate,
    [generateCompatibleShare] fails with the division-by-zero error as soon
    as the [privateKey] argument is non-empty. *)
Theorem generateCompatibleShare_duplicate_coordinate (privateKey : list Z)
    (a b : Share) (t : ShareType) :
  checks_pass sha256 [a; b] -> x a = x b -> privateKey <> [] ->
  KeySharing.generateCompatibleShare sha256 privateKey [a; b] t =
  Throw (Error "Division by zero").
Proof.
  intros Hc Hx Hne. rewrite generateCompatibleShare_lagrange by assumption.
  destruct privateKey as [| p pk]; [contradiction |].
  unfold lagrange, lagrange_byte, lagrange_term, for_index_r, indices.
  cbn [length seq for_each Nat.eqb at_ nth].
  assert (E : GF256.inverse (GF256.subtract (x a) (x b)) =
              Throw (Error "Division by zero")).
  { rewrite Hx. unfold GF256.subtract, GF256.add.
    rewrite Z.lxor_nilpotent. reflexivity. }
  rewrite E. reflexivity.
Qed.

(** X22: the interpolation is not tied to the coordinates 1, 2, 3: from any
    two shares that pass the checks, whose coordinates are distinct bytes and
    whose payloads are the values at these coordinates of the lines
    [s + r * k] of a secret, [reconstruct] returns the secret. *)
Theorem reconstruct_any_two_coordinates (pk : list Z) (rng : Rng) (a b : Share) :
  checks_pass sha256 [a; b] ->
  is_byte (x a) -> is_byte (x b) -> x a <> x b ->
  y a = evaluations pk rng (x a) ->
  y b = evaluations pk rng (x b) ->
  KeySharing.reconstruct sha256 [a; b] = Ok (map u8 pk).
Proof.
  intros Hc Ha Hb Hne Ya Yb. rewrite reconstruct_lagrange by assumption.
  cbn [at_ nth]. rewrite Ya at 1. rewrite evaluations_length.
  rewrite (lagrange_two a b pk rng 0); try assumption.
  - now rewrite evaluations_0_u8.
  - unfold is_byte. lia.
Qed.

(** ** The kinds of failure *)

Lemma verifyShare_failure (share : Share) (e : exn) :
  KeySharing.verifyShare sha256 share = Throw e ->
  e = RangeError "Input buffers must have the same byte length".
Proof.
  unfold KeySharing.verifyShare, timingSafeEqual.
  destruct (hash share =? "")%string; [discriminate |].
  destruct (_ =? _)%nat; [discriminate | now intros [= <-]].
Qed.

Lemma filter_r_failure (shares : list Share) (e : exn) :
  filter_r (fun share => ok <- KeySharing.verifyShare sha256 share ;; Ok (negb ok))
    shares = Throw e ->
  e = RangeError "Input buffers must have the same byte length".
Proof.
  induction shares as [| share shares IH]; cbn [filter_r]; [discriminate |].
  destruct (KeySharing.verifyShare sha256 share) as [ok |] eqn:V; cbn [bind].
  - destruct (filter_r _ shares); [discriminate |]. intros [= <-]. now apply IH.
  - intros [= <-]. now apply verifyShare_failure in V.
Qed.

Lemma for_each_failure {A St : Type} (P : exn -> Prop) (items : list A)
    (body : A -> St -> result St) :
  (forall a st e, body a st = Throw e -> P e) ->
  forall init e, for_each items body init = Throw e -> P e.
Proof.
  intros Hb. induction items as [| a items IH]; intros init e; cbn [for_each];
    [discriminate |].
  destruct (body a init) as [st |] eqn:B; cbn [bind].
  - apply IH.
  - intros [= <-]. eapply Hb, B.
Qed.

Lemma inverse_failure (a : Z) (e : exn) :
  GF256.inverse a = Throw e -> e = Error "Division by zero".
Proof.
  unfold GF256.inverse. destruct (a =? 0); [now intros [= <-] |].
  destruct (a =? 1); discriminate.
Qed.

Lemma lagrange_failure (shares : list Share) (target : Z) (len : nat) (e : exn) :
  lagrange shares target len = Throw e -> e = Error "Division by zero".
Proof.
  unfold lagrange, for_index_r.
  apply (for_each_failure (fun e => e = Error "Division by zero")).
  intros byteIndex bytes e' E.
  destruct (lagrange_byte shares target byteIndex) as [v |] eqn:B;
    [discriminate |].
  cbn [bind] in E. injection E as <-. revert B.
  unfold lagrange_byte, for_index_r.
  apply (for_each_failure (fun e => e = Error "Division by zero")).
  intros i result e' E.
  destruct (lagrange_term shares target byteIndex i) as [v |] eqn:T;
    [discriminate |].
  cbn [bind] in E. injection E as <-. revert T.
  unfold lagrange_term, for_index_r.
  apply (for_each_failure (fun e => e = Error "Division by zero")).
  intros j term e' E.
  destruct (i =? j)%nat; [discriminate |].
  destruct (GF256.inverse _) as [v |] eqn:I; [discriminate |].
  cbn [bind] in E. injection E as <-. now apply inverse_failure in I.
Qed.

Lemma reconstruct_failure (shares : list Share) (e : exn) :
  KeySharing.reconstruct sha256 shares = Throw e ->
  (e = Error "Need at least 2 shares to reconstruct" /\ (length shares < 2)%nat) \/
  e = Error "Invalid or tampered shares detected" \/
  e = Error "Incompatible share versions" \/
  e = Error "Division by zero" \/
  e = RangeError "Input buffers must have the same byte length".
Proof.
  unfold KeySharing.reconstruct.
  destruct (Nat.ltb_spec (length shares) 2); [intros [= <-]; auto |].
  destruct (filter_r _ shares) as [invalid |] eqn:F; cbn [bind].
  - destruct (0 <? length invalid)%nat; [intros [= <-]; auto |].
    destruct (1 <? length (nodup Z.eq_dec (map version shares)))%nat;
      [intros [= <-]; auto |].
    intros E. apply (lagrange_failure shares 0) in E. auto.
  - intros [= <-]. apply filter_r_failure in F. auto 6.
Qed.

(** X23: [reconstruct] fails in five ways only: with one of its three
    precondition errors, with the division-by-zero error of the
    interpolation, or with the [RangeError] that escapes from
    [verifyShare]. *)
Theorem reconstruct_failure_kinds (shares : list Share) (e : exn) :
  KeySharing.reconstruct sha256 shares = Throw e ->
  e = Error "Need at least 2 shares to reconstruct" \/
  e = Error "Invalid or tampered shares detected" \/
  e = Error "Incompatible share versions" \/
  e = Error "Division by zero" \/
  e = RangeError "Input buffers must have the same byte length".
Proof.
  intros E. apply reconstruct_failure in E.
  destruct E as [[-> _] | [-> | [-> | [-> | ->]]]]; auto 6.
Qed.

Lemma generateCompatibleShare_failure (privateKey : list Z)
    (shares : list Share) (t : ShareType) (e : exn) :
  KeySharing.generateCompatibleShare sha256 privateKey shares t = Throw e ->
  (e = Error "Need at least 2 existing shares to generate compatible share" /\
   (length shares < 2)%nat) \/
  e = Error "Invalid or tampered shares detected" \/
  e = Error "Incompatible share versions" \/
  e = Error "Division by zero" \/
  e = RangeError "Input buffers must have the same byte length".
Proof.
  unfold KeySharing.generateCompatibleShare.
  destruct (Nat.ltb_spec (length shares) 2); [intros [= <-]; auto |].
  destruct (filter_r _ shares) as [invalid |] eqn:F; cbn [bind].
  - destruct (0 <? length invalid)%nat; [intros [= <-]; auto |].
    destruct (1 <? length (nodup Z.eq_dec (map version shares)))%nat;
      [intros [= <-]; auto |].
    unfold for_index_r at 1.
    rewrite (new_share_loop (fun xs byteIndex =>
      for_index_r (length shares) (fun i result =>
        term <- for_index_r (length shares) (fun j term =>
                  if (i =? j)%nat then Ok term
                  else
                    inv <- GF256.inverse (GF256.subtract (x (at_ shares i)) (x (at_ shares j))) ;;
                    Ok (GF256.multiply term (GF256.multiply (GF256.subtract xs (x (at_ shares j))) inv)))
                (u8 (nth byteIndex (y (at_ shares i)) 0)) ;;
        Ok (GF256.add result term)) (u8 0))).
    cbn [x y].
    match goal with |- bind (bind ?m _) _ = _ -> _ => destruct m as [bytes |] eqn:L end;
      [discriminate |].
    cbn [bind]. intros [= <-].
    apply (lagrange_failure shares (coordinate t) (length privateKey)) in L. auto.
  - intros [= <-]. apply filter_r_failure in F. auto 6.
Qed.

(** * The key manager and the demo driver *)

Variable encode : string -> list Z.
Variable decode : list Z -> string.
Hypothesis encode_bytes : forall key, Forall is_byte (encode key).
Hypothesis encode_nonempty : forall key, key <> EmptyString -> encode key <> [].

(** [splitKey] rejects an empty key, then a total below the threshold, then a
    threshold below two, each with its message behind the prefix of the
    method, and takes no draw from the random source when it fails. *)
Lemma splitKey_validation (privateKey : string) (totalShares threshold : Z)
    (rng : Rng) :
  (privateKey = EmptyString ->
   KeyManager.splitKey sha256 encode privateKey totalShares threshold rng =
   (Throw (Error "Failed to split key: Private key is required"), rng)) /\
  (privateKey <> EmptyString -> totalShares < threshold ->
   KeyManager.splitKey sha256 encode privateKey totalShares threshold rng =
   (Throw (Error "Failed to split key: Total shares must be greater than or equal to threshold"), rng)) /\
  (privateKey <> EmptyString -> threshold <= totalShares -> threshold < 2 ->
   KeyManager.splitKey sha256 encode privateKey totalShares threshold rng =
   (Throw (Error "Failed to split key: Threshold must be at least 2"), rng)).
Proof.
  unfold KeyManager.splitKey. repeat split.
  - intros ->. reflexivity.
  - intros Hk Hlt. destruct (String.eqb_spec privateKey ""); [contradiction |].
    destruct (Z.ltb_spec totalShares threshold); [reflexivity | lia].
  - intros Hk Hle Hlt. destruct (String.eqb_spec privateKey ""); [contradiction |].
    destruct (Z.ltb_spec totalShares threshold); [lia |].
    destruct (Z.ltb_spec threshold 2); [reflexivity | lia].
Qed.

Lemma splitKey_valid (privateKey : string) (totalShares threshold : Z) (rng : Rng) :
  privateKey <> EmptyString -> threshold <= totalShares -> 2 <= threshold ->
  KeyManager.splitKey sha256 encode privateKey totalShares threshold rng =
  (Ok (map hex_share (fst (KeySharing.split sha256 (encode privateKey) rng))),
   snd (KeySharing.split sha256 (encode privateKey) rng)).
Proof.
  intros Hk Hle H2. unfold KeyManager.splitKey.
  destruct (String.eqb_spec privateKey ""); [contradiction |].
  destruct (Z.ltb_spec totalShares threshold); [lia |].
  destruct (Z.ltb_spec threshold 2); [lia |].
  destruct (KeySharing.split sha256 (encode privateKey) rng) as [shares rng'].
  reflexivity.
Qed.

(** X25: the requested numbers do not reach the engine: for every non-empty
    key and every accepted pair of total and threshold, [splitKey] returns
    what it returns for 3 and 2, namely exactly three shares, the boundary
    forms of the device, server and recovery shares of [split]. *)
Theorem splitKey_fixed_scheme (privateKey : string) (totalShares threshold : Z)
    (rng : Rng) :
  privateKey <> EmptyString -> threshold <= totalShares -> 2 <= threshold ->
  KeyManager.splitKey sha256 encode privateKey totalShares threshold rng =
    KeyManager.splitKey sha256 encode privateKey 3 2 rng /\
  exists s1 s2 s3,
    fst (KeySharing.split sha256 (encode privateKey) rng) = [s1; s2; s3] /\
    type s1 = deviceShare /\ type s2 = serverShare /\ type s3 = recoveryShare /\
    fst (KeyManager.splitKey sha256 encode privateKey totalShares threshold rng) =
      Ok [hex_share s1; hex_share s2; hex_share s3].
Proof.
  intros Hk Hle H2. rewrite !splitKey_valid by (assumption || lia).
  split; [reflexivity |].
  rewrite split_eq by now apply encode_nonempty.
  do 3 eexists. split; [reflexivity |]. repeat split.
Qed.

Lemma map_process_hex_share (shares : list Share) :
  Forall (fun share => Forall is_byte (y share)) shares ->
  map KeyManager.process (map hex_share shares) = shares.
Proof.
  induction 1 as [| share shares Hs _ IH]; [reflexivity |].
  cbn [map]. now rewrite process_hex_share, IH.
Qed.

Lemma combineShares_hex (shares : list Share) :
  (2 <= length shares)%nat ->
  Forall (fun share => Forall is_byte (y share)) shares ->
  KeyManager.combineShares sha256 decode (map hex_share shares) =
  match KeySharing.reconstruct sha256 shares with
  | Ok bytes => Ok (decode bytes)
  | Throw e => Throw (Error ("Failed to combine shares: " ++ KeyManager.message e)%string)
  end.
Proof.
  intros Hlen Hy. unfold KeyManager.combineShares. rewrite length_map.
  destruct (Nat.ltb_spec (length shares) 2); [lia |].
  rewrite map_process_hex_share by assumption.
  destruct (KeySharing.reconstruct sha256 shares); reflexivity.
Qed.

Lemma share_of_bytes (pk : list Z) (rng : Rng) (share : Share) :
  share_of sha256 pk rng share -> Forall is_byte (y share).
Proof. intros [t ->]. apply evaluations_bytes. Qed.

(** X26: what [splitKey] hands out, [combineShares] takes back: from any two
    of the three shares of a non-empty key, in either order, and from all
    three, it returns the decoding of the encoded key.  That is the key
    itself for every key that the two codecs carry through unchanged; the
    platform's decoder does not do so for every key (it drops a leading
    U+FEFF), so nothing more is said of the text. *)
Theorem splitKey_combineShares_roundtrip (privateKey : string)
    (totalShares threshold : Z) (rng : Rng) :
  privateKey <> EmptyString -> threshold <= totalShares -> 2 <= threshold ->
  exists h1 h2 h3,
    fst (KeyManager.splitKey sha256 encode privateKey totalShares threshold rng) =
      Ok [h1; h2; h3] /\
    KeyManager.combineShares sha256 decode [h1; h2] = Ok (decode (encode privateKey)) /\
    KeyManager.combineShares sha256 decode [h1; h3] = Ok (decode (encode privateKey)) /\
    KeyManager.combineShares sha256 decode [h2; h3] = Ok (decode (encode privateKey)) /\
    KeyManager.combineShares sha256 decode [h2; h1] = Ok (decode (encode privateKey)) /\
    KeyManager.combineShares sha256 decode [h3; h1] = Ok (decode (encode privateKey)) /\
    KeyManager.combineShares sha256 decode [h3; h2] = Ok (decode (encode privateKey)) /\
    KeyManager.combineShares sha256 decode [h1; h2; h3] = Ok (decode (encode privateKey)).
Proof.
  intros Hk Hle H2. rewrite splitKey_valid by assumption. cbn [fst].
  pose proof (encode_nonempty privateKey Hk) as Hne.
  pose proof (reconstruct_triple sha256 sha256_length (encode privateKey) rng Hne) as H3.
  rewrite split_eq in H3 |- * by assumption.
  set (pk := encode privateKey) in *.
  assert (S1 : share_of sha256 pk rng (stamped sha256 deviceShare (evaluations pk rng 1)))
    by (exists deviceShare; reflexivity).
  assert (S2 : share_of sha256 pk rng (stamped sha256 serverShare (evaluations pk rng 2)))
    by (exists serverShare; reflexivity).
  assert (S3 : share_of sha256 pk rng (stamped sha256 recoveryShare (evaluations pk rng 3)))
    by (exists recoveryShare; reflexivity).
  do 3 eexists. split; [reflexivity |].
  assert (P : forall a b, share_of sha256 pk rng a -> share_of sha256 pk rng b ->
                x a <> x b ->
                KeyManager.combineShares sha256 decode [hex_share a; hex_share b] =
                Ok (decode pk)).
  { intros a b Ha Hb Hx.
    change [hex_share a; hex_share b] with (map hex_share [a; b]).
    rewrite (combineShares_hex [a; b]).
    - rewrite (reconstruct_pair sha256 sha256_length pk rng) by assumption.
      now rewrite evaluations_0 by apply encode_bytes.
    - cbn. lia.
    - repeat constructor; eapply share_of_bytes; eassumption. }
  repeat split; try (apply P; [assumption | assumption | cbn; discriminate]).
  match goal with
  | |- KeyManager.combineShares _ _ [hex_share ?a; hex_share ?b; hex_share ?c] = _ =>
      change [hex_share a; hex_share b; hex_share c] with (map hex_share [a; b; c])
  end.
  rewrite combineShares_hex.
  - now rewrite H3, evaluations_0 by apply encode_bytes.
  - cbn. lia.
  - repeat constructor; eapply share_of_bytes; eassumption.
Qed.

(** X27: [combineShares] fails with an [Error] only, whose message is the
    prefix of the method followed by one of five messages: its own
    too-few-shares message, the tampered-share, version or division-by-zero
    message of the engine, or the message of the [RangeError] of the
    comparison, which thus never escapes as a [RangeError].  The
    too-few-shares message of the engine is never seen. *)
Theorem combineShares_failure_kinds (shares : list HexShare) (e : exn) :
  KeyManager.combineShares sha256 decode shares = Throw e ->
  exists m,
    e = Error ("Failed to combine shares: " ++ m)%string /\
    (m = "At least 2 valid shares are required"%string \/
     m = "Invalid or tampered shares detected"%string \/
     m = "Incompatible share versions"%string \/
     m = "Division by zero"%string \/
     m = "Input buffers must have the same byte length"%string).
Proof.
  unfold KeyManager.combineShares.
  destruct (Nat.ltb_spec (length shares) 2) as [Hlt | Hge].
  - intros [= <-]. eexists. split; [reflexivity | auto].
  - destruct (KeySharing.reconstruct sha256 (map KeyManager.process shares))
      as [bytes | e'] eqn:R; cbn [bind]; [discriminate |].
    intros [= <-].
    apply reconstruct_failure in R. rewrite length_map in R.
    destruct R as [[_ L] | [-> | [-> | [-> | ->]]]]; [lia | | | |];
      (eexists; split; [reflexivity | auto 6]).
Qed.

Lemma missing_type_found (ta tb : ShareType) :
  exists t,
    find (fun t => negb (existsb (ShareType_eqb t) [ta; tb])) KeyManager.allTypes
    = Some t /\ t <> ta /\ t <> tb.
Proof.
  destruct ta, tb; cbn; eexists; repeat split; discriminate.
Qed.

(** X28: two shares always leave an identity free, so
    [generateNewShareFromTwo] never fails with its could-not-determine
    message, nor with the too-few-shares message of the engine: it fails with
    an [Error] only, whose message is the prefix of the method followed by the
    tampered-share, version or division-by-zero message of the engine or the
    message of the [RangeError] of the comparison. *)
Theorem generateNewShareFromTwo_failure_kinds (share1 share2 : HexShare) (e : exn) :
  KeyManager.generateNewShareFromTwo sha256 share1 share2 = Throw e ->
  exists m,
    e = Error ("Failed to generate new share: " ++ m)%string /\
    (m = "Invalid or tampered shares detected"%string \/
     m = "Incompatible share versions"%string \/
     m = "Division by zero"%string \/
     m = "Input buffers must have the same byte length"%string).
Proof.
  unfold KeyManager.generateNewShareFromTwo. cbv zeta.
  destruct (missing_type_found (type (KeyManager.process share1))
                               (type (KeyManager.process share2)))
    as (t & F & _).
  rewrite F.
  destruct (KeySharing.generateCompatibleShare sha256 _ _ t) as [d | e'] eqn:G;
    cbn [bind]; [discriminate |].
  intros [= <-].
  apply generateCompatibleShare_failure in G. cbn [length] in G.
  destruct G as [[_ L] | [-> | [-> | [-> | ->]]]]; [lia | | | |];
    (eexists; split; [reflexivity | auto 6]).
Qed.

(** X29: handed the boundary forms of two shares of [split] with distinct
    coordinates, in either order, [generateNewShareFromTwo] returns the
    boundary form of the third share, tag included. *)
Theorem generateNewShareFromTwo_derives_third (pk : list Z) (rng : Rng)
    (a b c : Share) :
  In a (fst (KeySharing.split sha256 pk rng)) ->
  In b (fst (KeySharing.split sha256 pk rng)) ->
  In c (fst (KeySharing.split sha256 pk rng)) ->
  x a <> x b -> type c <> type a -> type c <> type b ->
  KeyManager.generateNewShareFromTwo sha256 (hex_share a) (hex_share b) =
  Ok (hex_share c).
Proof. apply generateNewShareFromTwo_third; assumption. Qed.

(** X30: the run of the demo: without a key, or with an empty one, [main]
    logs its not-found message; with a non-empty key it logs three shares,
    the text reconstructed from the first two, the third share again as the
    derived share, and the same text once more from the first two shares and
    the derived one.  The text is the decoding of the encoded key: the key
    itself whenever the two codecs carry it through unchanged. *)
Theorem main_run (key : string) (rng : Rng) :
  key <> EmptyString ->
  Example.main sha256 encode decode None rng =
    Throw (Error "PRIVATE_KEY not found in environment variables") /\
  Example.main sha256 encode decode (Some EmptyString) rng =
    Throw (Error "PRIVATE_KEY not found in environment variables") /\
  exists h1 h2 h3,
    Example.main sha256 encode decode (Some key) rng =
    Ok ([h1; h2; h3], decode (encode key), h3, decode (encode key)).
Proof.
  intros Hk. split; [reflexivity |]. split; [reflexivity |].
  unfold Example.main.
  destruct (String.eqb_spec key ""); [contradiction |].
  rewrite splitKey_valid by (assumption || lia). cbn [fst].
  pose proof (encode_nonempty key Hk) as Hne.
  pose proof (reconstruct_triple sha256 sha256_length (encode key) rng Hne) as H3.
  pose proof (generateNewShareFromTwo_third sha256 sha256_length
                (encode key) rng) as G.
  rewrite split_eq in H3, G |- * by assumption.
  set (pk := encode key) in *.
  set (s1 := stamped sha256 deviceShare (evaluations pk rng 1)) in *.
  set (s2 := stamped sha256 serverShare (evaluations pk rng 2)) in *.
  set (s3 := stamped sha256 recoveryShare (evaluations pk rng 3)) in *.
  assert (S1 : share_of sha256 pk rng s1) by (exists deviceShare; reflexivity).
  assert (S2 : share_of sha256 pk rng s2) by (exists serverShare; reflexivity).
  assert (S3 : share_of sha256 pk rng s3) by (exists recoveryShare; reflexivity).
  exists (hex_share s1), (hex_share s2), (hex_share s3).
  cbn [map bind firstn nth].
  change [hex_share s1; hex_share s2] with (map hex_share [s1; s2]).
  rewrite (combineShares_hex [s1; s2]);
    [| cbn; lia | repeat constructor; eapply share_of_bytes; eassumption].
  rewrite (reconstruct_pair sha256 sha256_length pk rng)
    by (assumption || (cbn; discriminate)).
  rewrite evaluations_0 by apply encode_bytes. cbn [bind].
  rewrite (G s1 s2 s3);
    [| now left | right; now left | right; right; now left
     | cbn; discriminate | cbn; discriminate | cbn; discriminate ].
  cbn [bind].
  change [hex_share s1; hex_share s2; hex_share s3]
    with (map hex_share [s1; s2; s3]).
  rewrite (combineShares_hex [s1; s2; s3]);
    [| cbn; lia | repeat constructor; eapply share_of_bytes; eassumption].
  rewrite H3, evaluations_0 by apply encode_bytes. reflexivity.
Qed.

(** ** The comparison of the CryptoJS variant *)

Lemma string_length_list (s : string) :
  String.length s = length (list_ascii_of_string s).
Proof. induction s as [| c s IH]; cbn; [reflexivity | now rewrite IH]. Qed.

Lemma fold_left_map_S {St : Type} (f : St -> nat -> St) (l : list nat) (init : St) :
  fold_left f (map S l) init = fold_left (fun st i => f st (S i)) l init.
Proof.
  revert init. induction l as [| i l IH]; intros init; [reflexivity |].
  cbn [map fold_left]. apply IH.
Qed.

Lemma char_code_inj (a b : ascii) :
  Z.of_nat (nat_of_ascii a) = Z.of_nat (nat_of_ascii b) -> a = b.
Proof.
  intros E. apply Nat2Z.inj in E.
  rewrite <- (ascii_nat_embedding a), <- (ascii_nat_embedding b). now rewrite E.
Qed.

Lemma xor_or_loop (la : list ascii) :
  forall lb acc,
    length la = length lb ->
    (fold_left (fun r i =>
       Z.lor r (Z.lxor (Z.of_nat (nat_of_ascii (nth i la zero)))
                       (Z.of_nat (nat_of_ascii (nth i lb zero)))))
       (seq 0 (length la)) acc = 0
     <-> acc = 0 /\ la = lb).
Proof.
  induction la as [| a la IH]; intros [| b lb] acc Hlen; try discriminate.
  - cbn. intuition.
  - cbn [length seq fold_left nth]. rewrite <- seq_shift, fold_left_map_S.
    cbn [nth]. rewrite IH by (cbn in Hlen; lia).
    rewrite Z.lor_eq_0_iff, Z.lxor_eq_0_iff. split.
    + intros [[H0 Hc] ->]. apply char_code_inj in Hc. subst. auto.
    + intros [H0 [= -> ->]]. auto.
Qed.

(** X24: the CryptoJS variant of [verifyShare] accepts a share exactly when
    its stored tag is non-empty and equal, character for character, to the
    recomputed tag; a stored tag of any other length, or one that differs in
    case or has text appended, is answered with [false]. *)
Theorem verifyShare_cryptojs_exact (share : Share) :
  KeySharingCryptoJS.verifyShare sha256 share =
  negb (hash share =? "")%string &&
  (hash share =? KeySharingCryptoJS.calculateShareHash sha256 share)%string.
Proof.
  unfold KeySharingCryptoJS.verifyShare.
  destruct (hash share =? "")%string; [reflexivity |]. cbn [negb andb].
  set (calc := KeySharingCryptoJS.calculateShareHash sha256 share).
  destruct (Nat.eqb_spec (String.length calc) (String.length (hash share)))
    as [Hlen | Hlen]; cbn [negb].
  - rewrite !string_length_list in Hlen.
    unfold for_index, indices, KeySharingCryptoJS.charCodeAt.
    rewrite string_length_list.
    pose proof (xor_or_loop (list_ascii_of_string calc)
                  (list_ascii_of_string (hash share)) 0 Hlen) as L.
    destruct (String.eqb_spec (hash share) calc) as [E | N].
    + apply Z.eqb_eq, L. split; [reflexivity | now rewrite E].
    + apply Z.eqb_neq. intros H0. apply L in H0. destruct H0 as [_ E].
      apply N.
      rewrite <- (string_of_list_ascii_of_string (hash share)),
              <- (string_of_list_ascii_of_string calc). now rewrite E.
  - destruct (String.eqb_spec (hash share) calc) as [E | N]; [| reflexivity].
    now rewrite E in Hlen.
Qed.

End EngineCoverage.

(** * Concrete instances of the further properties *)

Lemma latin_decode_encode (key : string) : latin_decode (latin_encode key) = key.
Proof.
  unfold latin_decode, latin_encode, utf8. rewrite map_map.
  rewrite (map_ext _ (fun c => c)), map_id.
  - apply string_of_list_ascii_of_string.
  - intros c. rewrite Nat2Z.id. apply ascii_nat_embedding.
Qed.

Lemma latin_encode_bytes (key : string) : Forall is_byte (latin_encode key).
Proof.
  apply Forall_forall. intros v Hv. unfold latin_encode, utf8 in Hv.
  apply in_map_iff in Hv. destruct Hv as (c & <- & _).
  pose proof (nat_ascii_bounded c). unfold is_byte. lia.
Qed.

Lemma latin_encode_nonempty (key : string) :
  key <> EmptyString -> latin_encode key <> [].
Proof. destruct key; [contradiction | discriminate]. Qed.

Lemma sample_checks_pass (a b : Share) :
  KeySharing.verifyShare sum_digest a = Ok true ->
  KeySharing.verifyShare sum_digest b = Ok true ->
  version a = version b ->
  checks_pass sum_digest [a; b].
Proof.
  intros Va Vb Hv. repeat split.
  - cbn. lia.
  - repeat constructor; assumption.
  - intros u v [<- | [<- | []]] [<- | [<- | []]]; congruence.
Qed.

Lemma split_shares_verify_witness :
  KeySharing.verifyShare sum_digest (at_ sample_shares 0) = Ok true /\
  String.length (hash (at_ sample_shares 0)) = 64%nat.
Proof.
  destruct (split_shares_verify sum_digest sum_digest_length
              [0x41; 0x42] sample_rng (at_ sample_shares 0))
    as (V & _ & L & _).
  - vm_compute. left. reflexivity.
  - split; assumption.
Defined.

Lemma split_hiding_witness :
  exists rng',
    at_ (fst (KeySharing.split sum_digest [0x58; 0x59] rng')) 1 =
    at_ (fst (KeySharing.split sum_digest [0x41; 0x42] sample_rng)) 1.
Proof.
  apply (split_hiding sum_digest [0x41; 0x42] [0x58; 0x59] sample_rng 1);
    [reflexivity | lia].
Defined.

Lemma verifyShare_accepts_trailing_text_witness :
  KeySharing.verifyShare sum_digest
    (with_hash (at_ sample_shares 0)
       (hash (at_ sample_shares 0) ++ "-edited")%string) = Ok true.
Proof.
  apply (verifyShare_accepts_trailing_text sum_digest sum_digest_length
           sum_digest_bytes _ "-edited"); reflexivity.
Defined.

Lemma reconstruct_rejects_altered_payload_witness :
  KeySharing.reconstruct sum_digest
    [with_y (at_ sample_shares 0) [1; 2]; at_ sample_shares 1] =
  Throw (Error "Invalid or tampered shares detected").
Proof.
  apply (reconstruct_rejects_altered_payload sum_digest sum_digest_length
           sum_digest_bytes [0x41; 0x42] sample_rng
           (at_ sample_shares 0) (at_ sample_shares 1) [1; 2]).
  - vm_compute. left. reflexivity.
  - vm_compute. right. left. reflexivity.
  - vm_compute. discriminate.
Defined.

Lemma reconstruct_version_gate_witness :
  KeySharing.reconstruct sum_digest
    [at_ sample_shares 0; with_version (at_ sample_shares 1) 2] =
  Throw (Error "Incompatible share versions").
Proof.
  apply (reconstruct_version_gate sum_digest sum_digest_length
           [0x41; 0x42] sample_rng (at_ sample_shares 0) (at_ sample_shares 1) 2).
  - vm_compute. left. reflexivity.
  - vm_compute. right. left. reflexivity.
  - discriminate.
Defined.

Lemma reconstruct_output_shape_witness :
  length [0x41; 0x42] = length (y (at_ [at_ sample_shares 2; at_ sample_shares 0] 0)) /\
  Forall is_byte [0x41; 0x42].
Proof.
  apply (reconstruct_output_shape sum_digest
           [at_ sample_shares 2; at_ sample_shares 0] [0x41; 0x42]).
  vm_compute. reflexivity.
Defined.

Lemma generateCompatibleShare_output_shape_witness :
  type (at_ sample_shares 2) = recoveryShare /\
  x (at_ sample_shares 2) = coordinate recoveryShare /\
  version (at_ sample_shares 2) =
    version (at_ [at_ sample_shares 0; at_ sample_shares 1] 0) /\
  length (y (at_ sample_shares 2)) = length [0; 0] /\
  Forall is_byte (y (at_ sample_shares 2)) /\
  KeySharing.verifyShare sum_digest (at_ sample_shares 2) = Ok true.
Proof.
  apply (generateCompatibleShare_output_shape sum_digest sum_digest_length
           [0; 0] [at_ sample_shares 0; at_ sample_shares 1] recoveryShare).
  vm_compute. reflexivity.
Defined.

Lemma generateCompatibleShare_duplicate_coordinate_witness :
  KeySharing.generateCompatibleShare sum_digest [0; 0]
    [at_ sample_shares 0; at_ other_shares 0] serverShare =
  Throw (Error "Division by zero").
Proof.
  apply (generateCompatibleShare_duplicate_coordinate sum_digest).
  - apply sample_checks_pass; vm_compute; reflexivity.
  - reflexivity.
  - discriminate.
Defined.

Lemma reconstruct_any_two_coordinates_witness :
  KeySharing.reconstruct sum_digest
    [stamped_at sum_digest deviceShare 5 (evaluations [0x41; 0x42] sample_rng 5);
     stamped_at sum_digest serverShare 200 (evaluations [0x41; 0x42] sample_rng 200)] =
  Ok (map u8 [0x41; 0x42]).
Proof.
  apply (reconstruct_any_two_coordinates sum_digest [0x41; 0x42] sample_rng).
  - apply sample_checks_pass; vm_compute; reflexivity.
  - unfold is_byte. cbn. lia.
  - unfold is_byte. cbn. lia.
  - cbn. discriminate.
  - reflexivity.
  - reflexivity.
Defined.

Lemma reconstruct_failure_kinds_witness :
  Error "Division by zero" = Error "Need at least 2 shares to reconstruct" \/
  Error "Division by zero" = Error "Invalid or tampered shares detected" \/
  Error "Division by zero" = Error "Incompatible share versions" \/
  Error "Division by zero" = Error "Division by zero" \/
  Error "Division by zero" =
    RangeError "Input buffers must have the same byte length".
Proof.
  apply (reconstruct_failure_kinds sum_digest
           [at_ sample_shares 0; at_ other_shares 0]).
  vm_compute. reflexivity.
Defined.

Lemma splitKey_fixed_scheme_witness :
  KeyManager.splitKey sum_digest latin_encode "AB" 5 3 sample_rng =
  KeyManager.splitKey sum_digest latin_encode "AB" 3 2 sample_rng.
Proof.
  apply (splitKey_fixed_scheme sum_digest latin_encode latin_encode_nonempty
           "AB" 5 3 sample_rng); [discriminate | lia | lia].
Defined.

Lemma splitKey_combineShares_roundtrip_witness :
  exists h1 h2 h3,
    fst (KeyManager.splitKey sum_digest latin_encode "AB" 3 2 sample_rng) =
      Ok [h1; h2; h3] /\
    KeyManager.combineShares sum_digest latin_decode [h1; h2] = Ok "AB"%string /\
    KeyManager.combineShares sum_digest latin_decode [h1; h3] = Ok "AB"%string /\
    KeyManager.combineShares sum_digest latin_decode [h2; h3] = Ok "AB"%string /\
    KeyManager.combineShares sum_digest latin_decode [h2; h1] = Ok "AB"%string /\
    KeyManager.combineShares sum_digest latin_decode [h3; h1] = Ok "AB"%string /\
    KeyManager.combineShares sum_digest latin_decode [h3; h2] = Ok "AB"%string /\
    KeyManager.combineShares sum_digest latin_decode [h1; h2; h3] = Ok "AB"%string.
Proof.
  apply (splitKey_combineShares_roundtrip sum_digest sum_digest_length
           latin_encode latin_decode latin_encode_bytes
           latin_encode_nonempty "AB" 3 2 sample_rng);
    [discriminate | lia | lia].
Defined.

Lemma combineShares_failure_kinds_witness :
  exists m,
    Error "Failed to combine shares: At least 2 valid shares are required" =
    Error ("Failed to combine shares: " ++ m)%string /\
    (m = "At least 2 valid shares are required"%string \/
     m = "Invalid or tampered shares detected"%string \/
     m = "Incompatible share versions"%string \/
     m = "Division by zero"%string \/
     m = "Input buffers must have the same byte length"%string).
Proof.
  apply (combineShares_failure_kinds sum_digest latin_decode
           [hex_share (at_ sample_shares 0)]).
  reflexivity.
Defined.

Lemma generateNewShareFromTwo_failure_kinds_witness :
  exists m,
    Error "Failed to generate new share: Division by zero" =
    Error ("Failed to generate new share: " ++ m)%string /\
    (m = "Invalid or tampered shares detected"%string \/
     m = "Incompatible share versions"%string \/
     m = "Division by zero"%string \/
     m = "Input buffers must have the same byte length"%string).
Proof.
  apply (generateNewShareFromTwo_failure_kinds sum_digest
           (hex_share (at_ sample_shares 0)) (hex_share (at_ other_shares 0))).
  vm_compute. reflexivity.
Defined.

Lemma generateNewShareFromTwo_derives_third_witness :
  KeyManager.generateNewShareFromTwo sum_digest
    (hex_share (at_ sample_shares 2)) (hex_share (at_ sample_shares 0)) =
  Ok (hex_share (at_ sample_shares 1)).
Proof.
  apply (generateNewShareFromTwo_derives_third sum_digest sum_digest_length
           [0x41; 0x42] sample_rng).
  - vm_compute. right. right. left. reflexivity.
  - vm_compute. left. reflexivity.
  - vm_compute. right. left. reflexivity.
  - vm_compute. discriminate.
  - vm_compute. discriminate.
  - vm_compute. discriminate.
Defined.

Lemma main_run_witness :
  exists h1 h2 h3,
    Example.main sum_digest latin_encode latin_decode (Some "AB"%string) sample_rng =
    Ok ([h1; h2; h3], "AB"%string, h3, "AB"%string).
Proof.
  apply (main_run sum_digest sum_digest_length latin_encode latin_decode
           latin_encode_bytes latin_encode_nonempty "AB" sample_rng).
  discriminate.
Defined.
